(** * DevSync: the synchronisation core, embedded and verified

    A shallow embedding of the state-synchronisation logic of the DevSync
    collaboration client:

    - [Whiteboard]  the whiteboard handlers of [RoomActiveContent]
                    (src/app/room/[roomName]/page.tsx);
    - [Provider]    the document bridge [LiveKitYjsProvider];
    - [Presence]    the cursor presence hook [usePresence];
    - [History]     the undo/redo history of [WhiteboardPro].

    React state is threaded explicitly: a handler takes the state it closes
    over and returns the state after its [setState] calls, together with the
    effects it performed on the outside (data published on the room, console
    lines).  Handlers that can let an exception escape return in [Exc]. *)

From Stdlib Require Import ZArith List String Ascii Strings.Byte Lia Bool.
From Stdlib Require Import Floats.PrimFloat.
From stdpp Require Import base option list gmap strings fin_maps.

Local Open Scope string_scope.
Local Open Scope list_scope.

(** ** JavaScript values and exceptions *)

Module JS.

(** A JavaScript [number] is a binary64 float.  Clock readings ([Date.now()],
    milliseconds) and array indices are integers and are kept in [Z]. *)
Definition number : Type := float.

(** Computations that may throw. *)
Inductive Exc (A : Type) : Type :=
| Return (a : A)
| Throw (err : string).
Arguments Return {A} a.
Arguments Throw {A} err.

#[export] Instance Exc_ret : MRet Exc := λ A a, Return a.

#[export] Instance Exc_bind : MBind Exc := λ A B k m,
  match m with
  | Return a => k a
  | Throw e => Throw e
  end.

(** [try { body } catch (err) { handler err }] *)
Definition try_catch {A : Type} (body : Exc A) (handler : string → A) : A :=
  match body with
  | Return a => a
  | Throw e => handler e
  end.

(** Truthiness of a string-valued property that may be missing: [undefined]
    and the empty string are falsy. *)
Definition truthy (v : option string) : bool :=
  match v with
  | None => false
  | Some s => negb (String.eqb s "")
  end.

(** A received payload, kept by what [JSON.parse(decoder.decode(payload))]
    makes of it: [Utf8 json] is a byte string whose text parses to [json],
    [Malformed] one on which the parse throws (or, like the text [null] on
    the whiteboard topic, the first property read of the result does, inside
    the same [try]). *)
Inductive Bytes (J : Type) : Type :=
| Malformed
| Utf8 (json : J).
Arguments Malformed {J}.
Arguments Utf8 {J} json.

Definition JSON_parse {J : Type} (payload : Bytes J) : Exc J :=
  match payload with
  | Utf8 json => Return json
  | Malformed => Throw "SyntaxError"
  end.

(** A payload as its receiver reads it: the bytes of a JSON text that parses
    to [json]. *)
Definition encode {J : Type} (json : J) : Bytes J := Utf8 json.

(** A slot typed [number] in data that travels as JSON.  JSON has no NaN and
    no infinity: [JSON.stringify] writes [null] for them, so the receiver of
    a value can hold [null] where its sender held a number. *)
Inductive Numeric : Type :=
| num (n : number)
| null.

(** What [JSON.parse(JSON.stringify(v))] makes of a number slot: NaN and the
    infinities come back as [null], negative zero as [0], and every other
    number as itself ([JSON.stringify] writes the shortest decimal that reads
    back as the same binary64). *)
Definition JSON_number (v : Numeric) : Numeric :=
  match v with
  | null => null
  | num n =>
      if is_nan n || is_infinity n then null
      else if is_zero n then num 0%float
      else num n
  end.

(** The values a participant sends as JSON: [through_JSON json] is what
    [JSON.parse(JSON.stringify(json))] gives.  Strings, [null] and absent
    properties come back as they were; numbers as [JSON_number] says. *)
Class JSON (J : Type) : Type := through_JSON : J → J.

#[export] Instance Numeric_JSON : JSON Numeric := JSON_number.

(** [encoder.encode(JSON.stringify(json))]: the payload a sender publishes.
    Its text parses to what JSON carries of [json]. *)
Definition stringify {J : Type} `{!JSON J} (json : J) : Bytes J :=
  encode (through_JSON json).

(** A value that JSON carries unchanged: each of its numbers is finite and
    is not negative zero. *)
Definition JSON_safe {J : Type} `{!JSON J} (json : J) : Prop :=
  through_JSON json = json.

End JS.

(** ** The LiveKit room, as far as the handlers read it *)

Module LiveKit.

(** [room.state] *)
Inductive ConnectionState : Type :=
| disconnected
| connecting
| connected
| reconnecting
| signalReconnecting.

Definition is_connected (s : ConnectionState) : bool :=
  match s with
  | connected => true
  | _ => false
  end.

Record Participant : Type := { identity : string }.

(** [participant?.identity]: [undefined] when there is no participant. *)
Definition identity_of (p : option Participant) : option string :=
  identity <$> p.

(** [a === b] on two [?.identity] reads. *)
Definition same_identity (a b : option Participant) : bool :=
  bool_decide (identity_of a = identity_of b).

(** What a handler does to the outside. *)
Inductive Effect (P : Type) : Type :=
| publishData (payload : P) (reliable : bool) (topic : string)
| console_log (line : string)
| console_warn (line : string)
| console_error (line : string).
Arguments publishData {P} payload reliable topic.
Arguments console_log {P} line.
Arguments console_warn {P} line.
Arguments console_error {P} line.

Definition is_publish {P : Type} (e : Effect P) : Prop :=
  match e with
  | publishData _ _ _ => True
  | _ => False
  end.

(** [localParticipant.publishData(payload, { reliable, topic })], up to the
    promise it returns.  Without a participant the call is a property read
    on [null] or [undefined]: it throws a [TypeError] and nothing is
    published. *)
Definition publish {P : Type} (who : option Participant) (payload : P)
    (reliable : bool) (topic : string) : JS.Exc (list (Effect P)) :=
  match who with
  | Some _ => JS.Return [publishData payload reliable topic]
  | None => JS.Throw "TypeError"
  end.

End LiveKit.

(** ** Whiteboard sync (src/app/room/[roomName]/page.tsx) *)

Module Whiteboard.
Import JS LiveKit.

(** The legacy [Stroke] of src/components/Whiteboard.tsx, which page.tsx
    imports.  The list holds strokes drawn here and strokes read from
    packets, so a number slot holds a [Numeric]. *)
Record Point : Type := { x : Numeric; y : Numeric }.

Inductive StrokeTool : Type :=
| pen | highlighter | rectangle | ellipse | arrow | line.

Inductive StrokeType : Type :=
| stroke | shape.

Record Stroke : Type := {
  points : list Point;
  color : string;
  width : Numeric;
  id : string;
  tool : option StrokeTool;
  type : option StrokeType
}.

(** The JSON envelope of the 'whiteboard' topic, by its [type] tag.  The
    properties the handler guards before use ([json.id], [json.strokes]) may
    be missing; [strokes] is [Some] exactly when [json.strokes] is an array.
    [data] and the entries of [strokes] are read unguarded into the
    [Stroke[]] state. *)
Inductive Json : Type :=
| stroke_msg (data : Stroke)
| clear_msg
| sync_request_msg
| remove_msg (id : option string)
| sync_response_msg (strokes : option (list Stroke))
| other_msg.

Definition Payload : Type := Bytes Json.

(** What JSON carries of a point, a stroke and an envelope. *)
#[export] Instance Point_JSON : JSON Point := λ p,
  {| x := JSON_number (x p); y := JSON_number (y p) |}.

#[export] Instance Stroke_JSON : JSON Stroke := λ s,
  {| points := through_JSON <$> points s; color := color s;
     width := JSON_number (width s); id := id s; tool := tool s;
     type := type s |}.

#[export] Instance Json_JSON : JSON Json := λ json,
  match json with
  | stroke_msg data => stroke_msg (through_JSON data)
  | sync_response_msg l =>
      sync_response_msg (fmap (M := list) (through_JSON (J := Stroke)) <$> l)
  | clear_msg => clear_msg
  | sync_request_msg => sync_request_msg
  | remove_msg i => remove_msg i
  | other_msg => other_msg
  end.
Abbreviation Effects := (list (Effect Payload)).

(** [strokes] is the [useState] cell, [strokesRef] the ref the effect of
    lines 111-113 copies it into after a render. *)
Record State : Type := {
  strokes : list Stroke;
  strokesRef : list Stroke
}.

(** [room.state] and the local participant. *)
Record Room : Type := {
  state : ConnectionState;
  localParticipant : option Participant
}.

Definition setStrokes (f : list Stroke → list Stroke) (st : State) : State :=
  {| strokes := f (strokes st); strokesRef := strokesRef st |}.

(** [useEffect(() => { strokesRef.current = strokes }, [strokes])] *)
Definition commit (st : State) : State :=
  {| strokes := strokes st; strokesRef := strokes st |}.

(** [prev.filter(s => s.id !== id)] *)
Definition without (i : string) (prev : list Stroke) : list Stroke :=
  filter (λ s, id s ≠ i) prev.

Definition WHITEBOARD : string := "whiteboard".

(** [handleData], lines 217-253. *)
Definition handleData (room : Room) (payload : Payload)
    (participant : option Participant) (topic : option string)
    (st : State) : State * Effects :=
  if negb (bool_decide (topic = Some WHITEBOARD)) then (st, [])
  else if same_identity participant (localParticipant room) then (st, [])
  else
    try_catch
      (json ← JSON_parse payload;
       match json with
       | stroke_msg data => mret (setStrokes (λ prev, prev ++ [data]) st, [])
       | clear_msg => mret (setStrokes (λ _, []) st, [])
       | sync_request_msg =>
           let currentStrokes := strokesRef st in
           if (0 <? length currentStrokes)%nat && is_connected (state room)
           then
             out ← publish (localParticipant room)
                     (stringify (sync_response_msg (Some currentStrokes)))
                     true WHITEBOARD;
             mret (st, out)
           else mret (st, [])
       | remove_msg i =>
           if truthy i
           then mret (setStrokes (without (default "" i)) st, [])
           else mret (st, [])
       | sync_response_msg l =>
           match l with
           | Some received => mret (setStrokes (λ _, received) st, [])
           | None => mret (st, [])
           end
       | other_msg => mret (st, [])
       end)
      (λ err, (st, [console_error "Error decoding whiteboard data"])).

(** [requestSync], lines 258-276, from the end of its 1500 ms delay up to
    the [await] of [publishData]; what follows the [await] (the line 'Sent
    sync request', or the warning for a rejected promise) waits for the
    transport. *)
Definition requestSync (isCleanedUp : bool) (room : Room) : Effects :=
  if isCleanedUp || negb (is_connected (state room))
  then [console_log "[Whiteboard] Skipping sync request - not connected"]
  else
    try_catch
      (publish (localParticipant room) (stringify sync_request_msg) true WHITEBOARD)
      (λ err, [console_warn "[Whiteboard] Failed to send sync request:"]).

(** [handleAddStroke], [handleRemoveStroke], [handleClear], lines 287-321,
    each up to the [await] of [publishData]. *)
Definition handleAddStroke (room : Room) (s : Stroke) (st : State)
    : State * Effects :=
  let st' := setStrokes (λ prev, prev ++ [s]) st in
  if negb (is_connected (state room)) then (st', [])
  else
    (st',
     try_catch
       (publish (localParticipant room) (stringify (stroke_msg s)) true WHITEBOARD)
       (λ err, [console_warn "[Whiteboard] Failed to broadcast stroke:"])).

Definition handleRemoveStroke (room : Room) (i : string) (st : State)
    : State * Effects :=
  let st' := setStrokes (without i) st in
  if negb (is_connected (state room)) then (st', [])
  else
    (st',
     try_catch
       (publish (localParticipant room) (stringify (remove_msg (Some i)))
          true WHITEBOARD)
       (λ err, [console_warn "[Whiteboard] Failed to broadcast stroke removal:"])).

Definition handleClear (room : Room) (st : State) : State * Effects :=
  let st' := setStrokes (λ _, []) st in
  if negb (is_connected (state room)) then (st', [])
  else
    (st',
     try_catch
       (publish (localParticipant room) (stringify clear_msg) true WHITEBOARD)
       (λ err, [console_warn "[Whiteboard] Failed to broadcast clear:"])).

(** *** Two participants: one edits, the other receives *)

Inductive Op : Type :=
| Add (s : Stroke)
| Remove (i : string)
| Clear.

Definition local_handler (room : Room) (op : Op) (st : State)
    : State * Effects :=
  match op with
  | Add s => handleAddStroke room s st
  | Remove i => handleRemoveStroke room i st
  | Clear => handleClear room st
  end.

(** The editing participant: each handler runs, the component renders. *)
Fixpoint run_local (room : Room) (ops : list Op) (st : State)
    : State * Effects :=
  match ops with
  | [] => (st, [])
  | op :: rest =>
      let '(st1, out1) := local_handler room op st in
      let '(st2, out2) := run_local room rest (commit st1) in
      (st2, out1 ++ out2)
  end.

(** The receiving participant: the room hands every published packet, in
    order, to [handleData] with the sender attached. *)
Definition receive (room : Room) (sender : Participant)
    (e : Effect Payload) (st : State) : State :=
  match e with
  | publishData payload _ topic =>
      commit (handleData room payload (Some sender) (Some topic) st).1
  | _ => st
  end.

Definition receive_all (room : Room) (sender : Participant)
    (out : Effects) (st : State) : State :=
  foldl (λ st e, receive room sender e st) st out.

(** What an edit is meant to do to a list: an add appends, a remove filters
    by id, a clear empties. *)
Definition edited (op : Op) (l : list Stroke) : list Stroke :=
  match op with
  | Add s => l ++ [s]
  | Remove i => without i l
  | Clear => []
  end.

(** The envelope a local handler builds for an edit, and the line its
    [catch] writes. *)
Definition message (op : Op) : Json :=
  match op with
  | Add s => stroke_msg s
  | Remove i => remove_msg (Some i)
  | Clear => clear_msg
  end.

Definition warning (op : Op) : string :=
  match op with
  | Add _ => "[Whiteboard] Failed to broadcast stroke:"
  | Remove _ => "[Whiteboard] Failed to broadcast stroke removal:"
  | Clear => "[Whiteboard] Failed to broadcast clear:"
  end.

(** A remove whose id is the empty string is dropped by the receiver's
    [if (json.id)]. *)
Definition nonempty_remove (op : Op) : Prop :=
  match op with
  | Remove i => i ≠ ""
  | _ => True
  end.

(** A sender is remote for a room when its identity is not the local one. *)
Definition remote (room : Room) (participant : option Participant) : Prop :=
  identity_of participant ≠ identity_of (localParticipant room).

(** *** Edits from both sides *)

(** An edit made here, through a local handler, or there, arriving as the
    sender's message. *)
Inductive Origin : Type := here | there.

Definition edit (room : Room) (sender : Participant) (e : Origin * Op)
    (st : State) : State :=
  match e.1 with
  | here => commit (local_handler room e.2 st).1
  | there => receive room sender (publishData (encode (message e.2)) true WHITEBOARD) st
  end.

Definition edits (room : Room) (sender : Participant) (es : list (Origin * Op))
    (st : State) : State :=
  foldl (λ st e, edit room sender e st) st es.

Definition ids (st : State) : list string := id <$> strokes st.

(** Every add, at the time it is applied, brings an id the list does not
    hold. *)
Fixpoint fresh_adds (room : Room) (sender : Participant)
    (es : list (Origin * Op)) (st : State) : Prop :=
  match es with
  | [] => True
  | e :: rest =>
      match e.2 with
      | Add s => id s ∉ ids st
      | _ => True
      end
      ∧ fresh_adds room sender rest (edit room sender e st)
  end.

(** *** A small session, for the examples *)

Definition alice : Participant := {| identity := "alice" |}.
Definition bob : Participant := {| identity := "bob" |}.
Definition alice_room : Room := {| state := connected; localParticipant := Some alice |}.
Definition bob_room : Room := {| state := connected; localParticipant := Some bob |}.
Definition board (l : list Stroke) : State := {| strokes := l; strokesRef := l |}.

Definition s1 : Stroke :=
  {| points := [ {| x := num 0.25%float; y := num 0.5%float |} ];
     color := "#ef4444"; width := num 2%float; id := "a1"; tool := Some pen;
     type := Some stroke |}.

Definition s2 : Stroke :=
  {| points := []; color := "#22c55e"; width := num 4%float; id := "b2";
     tool := Some rectangle; type := Some shape |}.

(** A stroke whose id is the empty string. *)
Definition nameless : Stroke :=
  {| points := []; color := "#000000"; width := num 2%float; id := "";
     tool := Some pen; type := Some stroke |}.

(** A stroke through a point whose [y] is NaN, as the editor holds it. *)
Definition broken : Stroke :=
  {| points := [ {| x := num 0.25%float; y := num nan |} ]; color := "#ef4444";
     width := num 2%float; id := "c3"; tool := Some pen; type := Some stroke |}.


(** What a participant publishes in answer to the packets of [out], in
    order, each handled with the sender attached. *)
Fixpoint answers (room : Room) (sender : Participant) (out : Effects)
    (st : State) : Effects :=
  match out with
  | [] => []
  | publishData payload _ topic :: rest =>
      let '(st1, out1) := handleData room payload (Some sender) (Some topic) st in
      out1 ++ answers room sender rest (commit st1)
  | _ :: rest => answers room sender rest st
  end.

End Whiteboard.

(** ** Shared files (src/app/room/[roomName]/page.tsx, lines 105-209) *)

Module Files.
Import JS.

(** [SharedFile] of the file-sharing panel; [data] stands for the [Blob]
    and [timestamp] for the [Date], in milliseconds. *)
Inductive FileStatus : Type := uploading | complete | error.

Record SharedFile : Type := {
  id : string;
  name : string;
  size : number;
  mimeType : string;
  sender : string;
  timestamp : Z;
  data : option (list Byte.byte);
  progress : option number;
  status : FileStatus
}.

(** [handleFileUploaded]: [setSharedFiles(prev => [file, ...prev])] *)
Definition handleFileUploaded (file : SharedFile) (prev : list SharedFile)
    : list SharedFile :=
  file :: prev.

(** [prev.map(f => f.id === id ? { ...f, progress } : f)] *)
Definition handleFileProgress (i : string) (p : number) (prev : list SharedFile)
    : list SharedFile :=
  (λ f, if bool_decide (id f = i)
        then {| id := id f; name := name f; size := size f;
                mimeType := mimeType f; sender := sender f;
                timestamp := timestamp f; data := data f;
                progress := Some p; status := status f |}
        else f) <$> prev.

(** [prev.map(f => f.id === id
       ? { ...f, status: 'complete', progress: 100, data } : f)] *)
Definition handleFileComplete (i : string) (blob : option (list Byte.byte))
    (prev : list SharedFile) : list SharedFile :=
  (λ f, if bool_decide (id f = i)
        then {| id := id f; name := name f; size := size f;
                mimeType := mimeType f; sender := sender f;
                timestamp := timestamp f; data := blob;
                progress := Some 100%float; status := complete |}
        else f) <$> prev.

(** [prev.map(f => f.id === id ? { ...f, status: 'error' } : f)] *)
Definition handleFileError (i : string) (prev : list SharedFile)
    : list SharedFile :=
  (λ f, if bool_decide (id f = i)
        then {| id := id f; name := name f; size := size f;
                mimeType := mimeType f; sender := sender f;
                timestamp := timestamp f; data := data f;
                progress := progress f; status := error |}
        else f) <$> prev.

(** What the callbacks of the panel and of the byte-stream handler do to
    the list. *)
Inductive FileEvent : Type :=
| Uploaded (file : SharedFile)
| Progress (i : string) (p : number)
| Completed (i : string) (blob : option (list Byte.byte))
| Failed (i : string).

Definition file_event (e : FileEvent) (prev : list SharedFile) : list SharedFile :=
  match e with
  | Uploaded file => handleFileUploaded file prev
  | Progress i p => handleFileProgress i p prev
  | Completed i blob => handleFileComplete i blob prev
  | Failed i => handleFileError i prev
  end.

Definition file_events (es : list FileEvent) (prev : list SharedFile)
    : list SharedFile :=
  foldl (λ files e, file_event e files) prev es.

(** The files an event sequence uploads, newest first. *)
Definition uploads (es : list FileEvent) : list SharedFile :=
  foldl (λ acc e, match e with Uploaded file => file :: acc | _ => acc end) [] es.

Definition report : SharedFile :=
  {| id := "f1"; name := "report.pdf"; size := 2048%float;
     mimeType := "application/pdf"; sender := "alice"; timestamp := 1000;
     data := None; progress := Some 0%float; status := uploading |}.

(** What no callback changes: everything but [data], [progress] and
    [status]. *)
Definition metadata (f : SharedFile)
    : string * string * number * string * string * Z :=
  (id f, name f, size f, mimeType f, sender f, timestamp f).

End Files.

(** ** The document bridge: [LiveKitYjsProvider] *)

Module Provider.
Import JS LiveKit.

Definition DOC_TOPIC : string := "code-editor".
Definition AWARENESS_TOPIC : string := "code-awareness".
Definition SYNC_REQUEST_TOPIC : string := "code-sync-request".
Definition SYNC_RESPONSE_TOPIC : string := "code-sync-response".

(** A [Uint8Array]. *)
Definition Uint8Array : Type := list Byte.byte.

(** Yjs and y-protocols are consumed, not defined, by the bridge.  A call
    that mutates its first argument is given by the value after the call and
    by whether the call threw; nothing is assumed about what a throwing call
    leaves behind. *)
Class Yjs : Type := {
  Doc : Type;
  Awareness : Type;
  (** [Y.applyUpdate(doc, update, origin)] *)
  Y_applyUpdate : Doc → Uint8Array → Doc * option string;
  (** [Y.encodeStateAsUpdate(doc)] *)
  Y_encodeStateAsUpdate : Doc → Exc Uint8Array;
  (** [applyAwarenessUpdate(awareness, update, origin)]: the awareness after
      the call and the client ids its 'update' event reports. *)
  applyAwarenessUpdate : Awareness → Uint8Array → Awareness * Exc (list Z);
  (** [encodeAwarenessUpdate(awareness, clients)] *)
  encodeAwarenessUpdate : Awareness → list Z → Exc Uint8Array
}.

Abbreviation Effects := (list (Effect Uint8Array)).

Section Bridge.
Context {Y : Yjs}.

(** The fields of the class.  [room] tells whether [this.room] is set; the
    room object itself lives outside and its [state] is read afresh by each
    handler. *)
Record State : Type := {
  doc : Doc;
  awareness : Awareness;
  room : bool;
  localParticipant : option Participant;
  connected : bool;
  synced : bool
}.

(** The constructor: [connected = false], [synced = false]. *)
Definition new (d : Doc) (a : Awareness) : State :=
  {| doc := d; awareness := a; room := false; localParticipant := None;
     connected := false; synced := false |}.

(** Methods run in a monad of the object's state, the effects performed so
    far, and exceptions. *)
Definition M (A : Type) : Type := State → State * Effects * Exc A.

#[local] Instance M_ret : MRet M := λ A a st, (st, [], Return a).

#[local] Instance M_bind : MBind M := λ A B k m st,
  let '(st1, out1, r1) := m st in
  match r1 with
  | Return a => let '(st2, out2, r2) := k a st1 in (st2, out1 ++ out2, r2)
  | Throw e => (st1, out1, Throw e)
  end.

Definition get : M State := λ st, (st, [], Return st).
Definition perform (e : Effect Uint8Array) : M unit := λ st, (st, [e], Return tt).
Definition lift {A : Type} (r : Exc A) : M A := λ st, (st, [], r).

Definition set_doc (d : Doc) : M unit := λ st,
  ({| doc := d; awareness := awareness st; room := room st;
      localParticipant := localParticipant st; connected := connected st;
      synced := synced st |}, [], Return tt).

Definition set_awareness (a : Awareness) : M unit := λ st,
  ({| doc := doc st; awareness := a; room := room st;
      localParticipant := localParticipant st; connected := connected st;
      synced := synced st |}, [], Return tt).

Definition set_synced (b : bool) : M unit := λ st,
  ({| doc := doc st; awareness := awareness st; room := room st;
      localParticipant := localParticipant st; connected := connected st;
      synced := b |}, [], Return tt).

(** [try { body } catch (err) { handler err }] *)
Definition try_ (body : M unit) (handler : string → M unit) : M unit := λ st,
  let '(st1, out1, r1) := body st in
  match r1 with
  | Return _ => (st1, out1, Return tt)
  | Throw e => let '(st2, out2, r2) := handler e st1 in (st2, out1 ++ out2, r2)
  end.

Definition skip : M unit := mret tt.

(** [if (!this.localParticipant || !this.connected) return;
     if (this.room?.state !== 'connected') return;] *)
Definition ready (live : ConnectionState) (st : State) : bool :=
  bool_decide (is_Some (localParticipant st)) && connected st
  && (room st && is_connected live).

(** [Y.applyUpdate(this.doc, payload, this)].  The document's 'update' event
    reaches [handleLocalUpdate] with [origin === this], which returns at its
    first line: nothing is published. *)
Definition applyUpdate_this (payload : Uint8Array) : M unit :=
  st ← get;
  let '(d, thrown) := Y_applyUpdate (doc st) payload in
  set_doc d;;
  match thrown with
  | None => skip
  | Some e => lift (Throw e)
  end.

(** [sendFullState], lines 156-170.  Like every method that publishes, it
    is followed up to the [await] of [publishData]: the line it writes after
    a send, or the warning for a promise that is rejected, waits for the
    transport. *)
Definition sendFullState (live : ConnectionState) : M unit :=
  st ← get;
  if negb (ready live st) then skip
  else
    try_ (state ← lift (Y_encodeStateAsUpdate (doc st));
          perform (publishData state true SYNC_RESPONSE_TOPIC))
         (λ err, perform (console_warn "[LiveKitProvider] Failed to send full state:")).

(** [handleAwarenessUpdate], lines 194-213: the listener of the awareness
    'update' event. *)
Definition handleAwarenessUpdate (live : ConnectionState) (changedClients : list Z)
    : M unit :=
  st ← get;
  if negb (ready live st) then skip
  else
    try_ (awarenessUpdate ← lift (encodeAwarenessUpdate (awareness st) changedClients);
          perform (publishData awarenessUpdate false AWARENESS_TOPIC))
         (λ err, skip).

(** [applyAwarenessUpdate(this.awareness, payload, participant)], with the
    'update' event it emits when some client changed. *)
Definition applyAwareness (live : ConnectionState) (payload : Uint8Array) : M unit :=
  st ← get;
  let '(a, r) := applyAwarenessUpdate (awareness st) payload in
  set_awareness a;;
  changed ← lift r;
  match changed with
  | [] => skip
  | _ => handleAwarenessUpdate live changed
  end.

Definition is_topic (topic : option string) (name : string) : bool :=
  bool_decide (topic = Some name).

(** [handleDataReceived], lines 121-151. *)
Definition handleDataReceived (live : ConnectionState) (payload : Uint8Array)
    (participant : option Participant) (topic : option string) : M unit :=
  st ← get;
  if same_identity participant (localParticipant st) then skip
  else
    try_
      (if is_topic topic DOC_TOPIC then
         applyUpdate_this payload
       else if is_topic topic AWARENESS_TOPIC then
         applyAwareness live payload
       else if is_topic topic SYNC_REQUEST_TOPIC then
         sendFullState live
       else if is_topic topic SYNC_RESPONSE_TOPIC then
         st ← get;
         if negb (synced st) then
           applyUpdate_this payload;;
           set_synced true;;
           perform (console_log "[LiveKitProvider] Synced with existing state")
         else skip
       else skip)
      (λ err, perform (console_error "[LiveKitProvider] Error processing data:")).

(** [connect] and [disconnect], lines 51-86; the delayed sync request of
    [connect] is a timer of its own and is not part of these two. *)
Definition connect (participant : Participant) : M unit := λ st,
  if connected st then (st, [console_warn "[LiveKitProvider] Already connected"], Return tt)
  else
    ({| doc := doc st; awareness := awareness st; room := true;
        localParticipant := Some participant; connected := true;
        synced := synced st |},
     [console_log "[LiveKitProvider] Connected to room"], Return tt).

Definition disconnect : M unit := λ st,
  if negb (connected st) then (st, [], Return tt)
  else
    ({| doc := doc st; awareness := awareness st; room := false;
        localParticipant := None; connected := false; synced := false |},
     [console_log "[LiveKitProvider] Disconnected"], Return tt).

(** *** One connection lifetime: the packets the room delivers *)

Record Packet : Type := {
  payload : Uint8Array;
  participant : option Participant;
  topic : option string
}.

(** The packets are handled one after the other; [live] gives the room's
    state at each delivery. *)
Fixpoint deliver (packets : list (ConnectionState * Packet)) (st : State)
    : State * Effects :=
  match packets with
  | [] => (st, [])
  | (live, p) :: rest =>
      let '(st1, out1, _) :=
        handleDataReceived live (payload p) (participant p) (topic p) st in
      let '(st2, out2) := deliver rest st1 in
      (st2, out1 ++ out2)
  end.


Definition SYNCED_LINE : Effect Uint8Array :=
  console_log "[LiveKitProvider] Synced with existing state".


(** A sender is remote when its identity is not the local one. *)
Definition remote (st : State) (sender : option Participant) : Prop :=
  identity_of sender ≠ identity_of (localParticipant st).


(** The state after a snapshot [d] has been applied and the flag set. *)
Definition synced_with (d : Doc) (st : State) : State :=
  {| doc := d; awareness := awareness st; room := room st;
     localParticipant := localParticipant st; connected := connected st;
     synced := true |}.

(** The origin of a document update: the bridge itself ([origin === this]),
    or anything else (an editor binding, [null]). *)
Inductive Origin : Type := this | elsewhere.

(** [handleLocalUpdate], lines 175-189: the listener of the document's
    'update' event. *)
Definition handleLocalUpdate (live : ConnectionState) (update : Uint8Array)
    (origin : Origin) : M unit :=
  st ← get;
  match origin with
  | this => skip
  | elsewhere =>
      if negb (ready live st) then skip
      else perform (publishData update true DOC_TOPIC)
  end.

(** [encoder.encode(JSON.stringify({ type: 'sync-request' }))] *)
Definition SYNC_REQUEST_JSON : Uint8Array :=
  let q := String (ascii_of_nat 34) "" in
  list_byte_of_string
    ("{" +:+ q +:+ "type" +:+ q +:+ ":" +:+ q +:+ "sync-request" +:+ q +:+ "}").

(** [requestSync], lines 91-116, from the end of its 1000 ms delay up to
    the [await] of [publishData]. *)
Definition requestSync (live : ConnectionState) : M unit :=
  st ← get;
  if negb (bool_decide (is_Some (localParticipant st))) || negb (connected st)
  then skip
  else if negb (room st && is_connected live)
  then perform (console_log "[LiveKitProvider] Skipping sync request - room not connected")
  else perform (publishData SYNC_REQUEST_JSON true SYNC_REQUEST_TOPIC).

(** The room hands a published packet to another participant's bridge, with
    the sender attached. *)
Definition receive (live : ConnectionState) (sender : Participant)
    (e : Effect Uint8Array) (st : State) : State * Effects :=
  match e with
  | publishData payload _ topic =>
      (handleDataReceived live payload (Some sender) (Some topic) st).1
  | _ => (st, [])
  end.

(** The state with another document. *)
Definition with_doc (d : Doc) (st : State) : State :=
  {| doc := d; awareness := awareness st; room := room st;
     localParticipant := localParticipant st; connected := connected st;
     synced := synced st |}.

End Bridge.

(** A document library for the examples: the document is the list of the
    updates applied to it, and no call throws. *)
Definition journal : Yjs :=
  {| Doc := list Uint8Array;
     Awareness := unit;
     Y_applyUpdate := λ d u, (d ++ [u], None);
     Y_encodeStateAsUpdate := λ d, Return (concat d);
     applyAwarenessUpdate := λ a _, (a, Return []);
     encodeAwarenessUpdate := λ _ _, Return [] |}.


Definition carol : Participant := {| identity := "carol" |}.
Definition dave : Participant := {| identity := "dave" |}.

(** carol's bridge, connected, before and after its initial sync. *)
Definition fresh_bridge : @State journal :=
  {| doc := ([] : @Doc journal); awareness := (tt : @Awareness journal);
     room := true; localParticipant := Some carol; connected := true;
     synced := false |}.

Definition synced_bridge : @State journal :=
  {| doc := ([[Byte.x01]] : @Doc journal); awareness := (tt : @Awareness journal);
     room := true; localParticipant := Some carol; connected := true;
     synced := true |}.

(** dave's bridge, connected and synced, holding two updates. *)
Definition dave_bridge : @State journal :=
  {| doc := ([[Byte.x01]; [Byte.x02]] : @Doc journal);
     awareness := (tt : @Awareness journal);
     room := true; localParticipant := Some dave; connected := true;
     synced := true |}.


Definition sync_request_packet (sender : Participant) : Packet :=
  {| payload := SYNC_REQUEST_JSON; participant := Some sender;
     topic := Some SYNC_REQUEST_TOPIC |}.

End Provider.

(** ** Cursor presence: [usePresence] *)

Module Presence.
Import JS LiveKit.
Local Open Scope Z_scope.

(** Cursor position normalized to 0-1.  Positions are read from packets
    as well as passed in by the canvas, so a slot holds a [Numeric]. *)
Record CursorPosition : Type := { x : Numeric; y : Numeric }.

#[export] Instance CursorPosition_JSON : JSON CursorPosition := λ p,
  {| x := JSON_number (x p); y := JSON_number (y p) |}.

(** [ParticipantCursor extends CursorPosition] *)
Record ParticipantCursor : Type := {
  position :> CursorPosition;
  identity : string;
  color : string;
  timestamp : Z
}.

(** [CursorMap = Record<string, ParticipantCursor>] *)
Abbreviation CursorMap := (gmap string ParticipantCursor).

Definition CURSOR_COLORS : list string :=
  ["#ef4444"; "#f97316"; "#eab308"; "#22c55e";
   "#06b6d4"; "#3b82f6"; "#8b5cf6"; "#ec4899"].

(** [ToInt32], and [a << k] on it. *)
Definition toInt32 (z : Z) : Z := (z + 2 ^ 31) mod 2 ^ 32 - 2 ^ 31.
Definition shl (a k : Z) : Z := toInt32 (Z.shiftl (toInt32 a) k).

(** A JavaScript string is a sequence of UTF-16 code units, and
    [charCodeAt] reads one of them.  A string of this file holds the UTF-8
    bytes of the text it stands for: [code_points] decodes them, and
    [code_units] writes a code point above U+FFFF as its surrogate pair.
    Bytes that start no sequence stand for no text and read as U+FFFD. *)
Definition continuation (b : Z) : bool := (128 <=? b) && (b <? 192).

Fixpoint code_points (bytes : list Z) : list Z :=
  match bytes with
  | [] => []
  | b0 :: rest0 =>
      if b0 <? 128 then b0 :: code_points rest0
      else
        match rest0 with
        | b1 :: rest1 =>
            if (194 <=? b0) && (b0 <? 224) && continuation b1
            then ((b0 - 192) * 64 + (b1 - 128)) :: code_points rest1
            else
              match rest1 with
              | b2 :: rest2 =>
                  if (224 <=? b0) && (b0 <? 240) && continuation b1
                     && continuation b2
                  then ((b0 - 224) * 4096 + (b1 - 128) * 64 + (b2 - 128))
                       :: code_points rest2
                  else
                    match rest2 with
                    | b3 :: rest3 =>
                        if (240 <=? b0) && (b0 <? 245) && continuation b1
                           && continuation b2 && continuation b3
                        then ((b0 - 240) * 262144 + (b1 - 128) * 4096
                              + (b2 - 128) * 64 + (b3 - 128))
                             :: code_points rest3
                        else 65533 :: code_points rest0
                    | [] => 65533 :: code_points rest0
                    end
              | [] => 65533 :: code_points rest0
              end
        | [] => [65533]
        end
  end.

Definition code_units (point : Z) : list Z :=
  if point <? 65536 then [point]
  else [55296 + (point - 65536) / 1024; 56320 + (point - 65536) mod 1024].

(** [identity.charCodeAt(i)] for [i] from [0] to [identity.length - 1]. *)
Definition charCodes (s : string) : list Z :=
  code_points ((λ c, Z.of_nat (nat_of_ascii c)) <$> list_ascii_of_string s)
  ≫= code_units.

(** [getParticipantColor], lines 268-274. *)
Definition getParticipantColor (identity : string) : string :=
  let hash := foldl (λ hash c, c + (shl hash 5 - hash)) 0 (charCodes identity) in
  default ""
    (CURSOR_COLORS !! Z.to_nat (Z.abs hash mod Z.of_nat (length CURSOR_COLORS))).

Definition PRESENCE_TOPIC : string := "cursor-presence".
Definition BROADCAST_INTERVAL_MS : Z := 33.
Definition CURSOR_STALE_MS : Z := 3000.

Definition Payload : Type := Bytes CursorPosition.
Abbreviation Effects := (list (Effect Payload)).

(** What the hook closes over. *)
Record Hook : Type := {
  enabled : bool;
  localParticipant : option Participant
}.

(** The updater of the stale-cursor sweep, lines 304-316, at [Date.now() =
    now]: the loop over the copy's keys deletes the stale ones. *)
Definition sweep (now : Z) (prev : CursorMap) : CursorMap :=
  let '(updated, hasChanges) :=
    map_fold
      (λ identity cursor '(updated, hasChanges),
         if CURSOR_STALE_MS <? now - timestamp cursor
         then (delete identity updated, true)
         else (updated, hasChanges))
      (prev, false) prev in
  if hasChanges : bool then updated else prev.

(** The updater of [handleData]: it runs when React processes the update,
    outside the handler's [try], and reads [participant.identity] and
    [Date.now()] then. *)
Definition received (now : Z) (data : CursorPosition)
    (participant : option Participant) (prev : CursorMap) : Exc CursorMap :=
  match participant with
  | None => Throw "TypeError"
  | Some p =>
      Return (<[ LiveKit.identity p :=
                 {| position := data;
                    identity := LiveKit.identity p;
                    color := getParticipantColor (LiveKit.identity p);
                    timestamp := now |} ]> prev)
  end.

(** [handleData], lines 326-351. *)
Definition handleData (hook : Hook) (now : Z) (payload : Payload)
    (participant : option Participant) (topic : option string)
    (cursors : CursorMap) : Exc (CursorMap * Effects) :=
  if negb (bool_decide (topic = Some PRESENCE_TOPIC)) then Return (cursors, [])
  else if same_identity participant (localParticipant hook) then Return (cursors, [])
  else
    try_catch
      (data ← JSON_parse payload;
       mret (cursors' ← received now data participant cursors;
             mret (cursors', [])))
      (λ err, Return (cursors,
                      [console_error "[usePresence] Failed to parse cursor data:"])).

(** The sweep's test on one entry. *)
Definition stale (now : Z) (c : ParticipantCursor) : bool :=
  CURSOR_STALE_MS <? now - timestamp c.

(** [handleParticipantDisconnected], lines 363-369. *)
Definition handleParticipantDisconnected (participant : Participant)
    (prev : CursorMap) : CursorMap :=
  delete (LiveKit.identity participant) prev.

(** *** The throttled broadcast *)

Record Refs : Type := {
  lastBroadcastRef : Z;
  pendingPositionRef : option CursorPosition;
  animationFrameRef : option nat
}.

Definition initial : Refs :=
  {| lastBroadcastRef := 0; pendingPositionRef := None; animationFrameRef := None |}.

(** [broadcastCursor], lines 378-386; [handle] is what
    [requestAnimationFrame] returns if it is called. *)
Definition broadcastCursor (hook : Hook) (handle : nat)
    (position : CursorPosition) (refs : Refs) : Refs :=
  if negb (enabled hook) || negb (bool_decide (is_Some (localParticipant hook)))
  then refs
  else
    let refs :=
      {| lastBroadcastRef := lastBroadcastRef refs;
         pendingPositionRef := Some position;
         animationFrameRef := animationFrameRef refs |} in
    match animationFrameRef refs with
    | Some _ => refs
    | None =>
        {| lastBroadcastRef := lastBroadcastRef refs;
           pendingPositionRef := pendingPositionRef refs;
           animationFrameRef := Some handle |}
    end.

(** The callback given to [requestAnimationFrame], lines 386-406, run by the
    browser at [Date.now() = now]. *)
Definition onAnimationFrame (now : Z) (refs : Refs) : Refs * Effects :=
  let refs :=
    {| lastBroadcastRef := lastBroadcastRef refs;
       pendingPositionRef := pendingPositionRef refs;
       animationFrameRef := None |} in
  if now - lastBroadcastRef refs <? BROADCAST_INTERVAL_MS then (refs, [])
  else
    match pendingPositionRef refs with
    | None => (refs, [])
    | Some pos =>
        ({| lastBroadcastRef := now;
            pendingPositionRef := pendingPositionRef refs;
            animationFrameRef := animationFrameRef refs |},
         [publishData (stringify pos) false PRESENCE_TOPIC])
    end.

(** What happens to the hook over time: calls of [broadcastCursor], each at
    some clock reading, and animation frames. *)
Inductive Event : Type :=
| call (at_ : Z) (position : CursorPosition)
| frame (now : Z).

(** The browser: the refs, and the next handle of [requestAnimationFrame].
    A frame runs the callback only if one is queued, and the hook queues one
    exactly while [animationFrameRef] is set. *)
Record Browser : Type := {
  refs : Refs;
  nextHandle : nat
}.

Definition start : Browser := {| refs := initial; nextHandle := 1 |}.

(** One event; the result lists the sends it caused, each with the clock
    reading it was made at. *)
Definition step (hook : Hook) (e : Event) (b : Browser)
    : Browser * list (Z * Effect Payload) :=
  match e with
  | call _ position =>
      let refs' := broadcastCursor hook (nextHandle b) position (refs b) in
      ({| refs := refs';
          nextHandle :=
            match animationFrameRef (refs b), animationFrameRef refs' with
            | None, Some _ => S (nextHandle b)
            | _, _ => nextHandle b
            end |}, [])
  | frame now =>
      match animationFrameRef (refs b) with
      | None => (b, [])
      | Some _ =>
          let '(refs', out) := onAnimationFrame now (refs b) in
          ({| refs := refs'; nextHandle := nextHandle b |}, (λ e, (now, e)) <$> out)
      end
  end.

Fixpoint run (hook : Hook) (events : list Event) (b : Browser)
    : Browser * list (Z * Effect Payload) :=
  match events with
  | [] => (b, [])
  | e :: rest =>
      let '(b1, out1) := step hook e b in
      let '(b2, out2) := run hook rest b1 in
      (b2, out1 ++ out2)
  end.

(** The times of the sends. *)
Definition send_times (sends : list (Z * Effect Payload)) : list Z := fst <$> sends.

(** The calls of [broadcastCursor] among the events, and the statement that
    all of them fall within the [span] milliseconds after [t0]. *)
Definition calls_only (events : list Event) : list (Z * CursorPosition) :=
  omap (λ e, match e with call t p => Some (t, p) | frame _ => None end) events.

Definition within (t0 span : Z) (events : list Event) : Prop :=
  Forall (λ c, t0 ≤ c.1 ≤ t0 + span) (calls_only events).

(** A burst of calls with no animation frame in between. *)
Definition burst (calls : list (Z * CursorPosition)) : list Event :=
  (λ c, call c.1 c.2) <$> calls.

(** Each time is at least the broadcast interval after the one before it,
    the first after [last]. *)
Fixpoint spaced (last : Z) (times : list Z) : Prop :=
  match times with
  | [] => True
  | t :: rest => BROADCAST_INTERVAL_MS ≤ t - last ∧ spaced t rest
  end.

(** The packet a send of [pos] publishes. *)
Definition cursor_packet (pos : CursorPosition) : Effect Payload :=
  publishData (stringify pos) false PRESENCE_TOPIC.

(** *** A small session, for the examples *)

Definition erin : Participant := {| LiveKit.identity := "erin" |}.
Definition frank : Participant := {| LiveKit.identity := "frank" |}.
Definition erin_hook : Hook := {| enabled := true; localParticipant := Some erin |}.

Definition p1 : CursorPosition := {| x := num 0.25%float; y := num 0.25%float |}.
Definition p2 : CursorPosition := {| x := num 0.75%float; y := num 0.5%float |}.

Definition cursor_of (who : string) (pos : CursorPosition) (t : Z) : ParticipantCursor :=
  {| position := pos; identity := who; color := getParticipantColor who;
     timestamp := t |}.

(** One hundred calls within sixteen milliseconds, the display refreshing
    in the middle of them and again after the last. *)
Definition hundred_calls_two_frames : list Event :=
  replicate 50 (call 1004 p1) ++ [frame 1008]
  ++ replicate 50 (call 1012 p2) ++ [frame 1025].

(** One hundred calls within one frame, ten milliseconds after a send. *)
Definition after_a_send : Browser := (run erin_hook [call 1000 p1; frame 1000] start).1.

Definition hundred_calls_one_frame : list Event :=
  replicate 100 (call 1010 p2) ++ [frame 1016].

(** The animation frames among the events. *)
Definition frames_only (events : list Event) : list Z :=
  omap (λ e, match e with frame now => Some now | call _ _ => None end) events.

(** Frames with no call in between. *)
Definition frames (times : list Z) : list Event := frame <$> times.

(** Identities outside ASCII: e with an acute accent (U+00E9, two bytes of
    UTF-8, one code unit) and the grinning face (U+1F600, four bytes, the
    surrogate pair D83D DE00). *)
Definition e_acute : string :=
  String (ascii_of_nat 195) (String (ascii_of_nat 169) EmptyString).

Definition grinning_face : string :=
  String (ascii_of_nat 240) (String (ascii_of_nat 159)
    (String (ascii_of_nat 152) (String (ascii_of_nat 128) EmptyString))).

End Presence.

(** ** Undo/redo history of [WhiteboardPro] *)

Module History.
Import JS.
Local Open Scope Z_scope.

(** src/lib/whiteboard/types.ts *)
Record Point : Type := { x : number; y : number }.

Inductive ToolType : Type :=
| pen | highlighter | eraser | laser | rectangle | ellipse | arrow | line
| sticky | select.

Inductive ElementType : Type :=
| stroke | shape | sticky_note.

Record Size : Type := { w : number; h : number }.

Record WhiteboardElement : Type := {
  id : string;
  type : ElementType;
  tool : ToolType;
  color : string;
  width : number;
  opacity : number;
  points : option (list Point);
  startPoint : option Point;
  endPoint : option Point;
  text : option string;
  position : option Point;
  size : option Size;
  backgroundColor : option string
}.

Abbreviation Snapshot := (list WhiteboardElement).

(** The two [useState] cells, lines 60-61. *)
Record State : Type := {
  history : list Snapshot;
  historyIndex : Z
}.

Definition initial : State := {| history := [[]]; historyIndex := 0 |}.

(** [a.slice(0, end)]: a negative [end] counts from the end of the array. *)
Definition slice0 {A : Type} (a : list A) (end_ : Z) : list A :=
  let len := Z.of_nat (length a) in
  let k := if end_ <? 0 then Z.max (len + end_) 0 else Z.min end_ len in
  take (Z.to_nat k) a.

(** [a[i]]: [undefined] outside the array. *)
Definition at_index {A : Type} (a : list A) (i : Z) : option A :=
  if i <? 0 then None else a !! Z.to_nat i.

(** [pushToHistory], lines 103-111. *)
Definition pushToHistory (newElements : Snapshot) (st : State) : State :=
  let newHistory := slice0 (history st) (historyIndex st + 1) ++ [newElements] in
  let newHistory :=
    if 50 <? Z.of_nat (length newHistory) then tail newHistory else newHistory in
  {| history := newHistory; historyIndex := Z.min (historyIndex st + 1) 49 |}.

Definition canUndo (st : State) : bool := 0 <? historyIndex st.
Definition canRedo (st : State) : bool :=
  historyIndex st <? Z.of_nat (length (history st)) - 1.

(** [handleUndo] and [handleRedo], lines 116-128.  [onSetElements] is an
    optional prop; the result carries the argument it is called with, if it
    is called. *)
Definition handleUndo (onSetElements : bool) (st : State)
    : State * option (option Snapshot) :=
  if negb (canUndo st) || negb onSetElements then (st, None)
  else
    let newIndex := historyIndex st - 1 in
    ({| history := history st; historyIndex := newIndex |},
     Some (at_index (history st) newIndex)).

Definition handleRedo (onSetElements : bool) (st : State)
    : State * option (option Snapshot) :=
  if negb (canRedo st) || negb onSetElements then (st, None)
  else
    let newIndex := historyIndex st + 1 in
    ({| history := history st; historyIndex := newIndex |},
     Some (at_index (history st) newIndex)).

(** The effect of lines 64-68, run after a render with the props [isOpen]
    and [elements]. *)
Definition initialize (isOpen : bool) (elements : Snapshot) (st : State) : State :=
  if isOpen
     && bool_decide (length (history st) = 1%nat)
     && bool_decide ((length <$> history st !! 0%nat) = Some 0%nat)
     && (0 <? length elements)%nat
  then {| history := [elements]; historyIndex := historyIndex st |}
  else st.

Inductive Op : Type :=
| Push (newElements : Snapshot)
| Undo (onSetElements : bool)
| Redo (onSetElements : bool)
| Render (isOpen : bool) (elements : Snapshot).

Definition apply (op : Op) (st : State) : State :=
  match op with
  | Push newElements => pushToHistory newElements st
  | Undo onSetElements => (handleUndo onSetElements st).1
  | Redo onSetElements => (handleRedo onSetElements st).1
  | Render isOpen elements => initialize isOpen elements st
  end.

Definition run (ops : list Op) (st : State) : State :=
  foldl (λ st op, apply op st) st ops.

(** The history holds between one and fifty snapshots and the index points
    at one of them. *)
Definition in_bounds (st : State) : Prop :=
  (1 ≤ length (history st) ≤ 50)%nat
  ∧ 0 ≤ historyIndex st ≤ Z.of_nat (length (history st)) - 1.

(** *** The laser trail, lines 70-100 and 160-170 *)









(** *** A small session, for the examples *)

Definition dot (n : number) : WhiteboardElement :=
  {| id := "e1"; type := stroke; tool := pen; color := "#3b82f6";
     width := n; opacity := 1%float; points := Some [];
     startPoint := None; endPoint := None; text := None; position := None;
     size := None; backgroundColor := None |}.

Definition origin : Point := {| x := 0%float; y := 0%float |}.

End History.

(** ** The past/present/future history: [useWhiteboardHistory] *)

Module HistoryHook.
Import JS History.
Local Open Scope Z_scope.

Record HistoryState : Type := {
  past : list Snapshot;
  present : Snapshot;
  future : list Snapshot
}.

(** [HISTORY.maxSize], the default of the hook's [maxSize]. *)
Definition HISTORY_maxSize : Z := 50.

(** The initial [useState]. *)
Definition start (initialElements : Snapshot) : HistoryState :=
  {| past := []; present := initialElements; future := [] |}.

(** The updater of [setElements], lines 41-47. *)
Definition setElements (elements : Snapshot) (prev : HistoryState) : HistoryState :=
  {| past := past prev; present := elements; future := [] |}.

(** The updater of [push], lines 50-63. *)
Definition push (maxSize : Z) (newElements : Snapshot) (prev : HistoryState)
    : HistoryState :=
  let newPast := past prev ++ [present prev] in
  let newPast :=
    if maxSize <? Z.of_nat (length newPast) then tail newPast else newPast in
  {| past := newPast; present := newElements; future := [] |}.

(** The updater of [undo], lines 66-80: [newPast.pop()] takes the last
    entry. *)
Definition undo (prev : HistoryState) : HistoryState :=
  match last (past prev) with
  | None => prev
  | Some previous =>
      {| past := removelast (past prev);
         present := previous;
         future := present prev :: future prev |}
  end.

(** The updater of [redo], lines 83-97: [newFuture.shift()] takes the first
    entry. *)
Definition redo (prev : HistoryState) : HistoryState :=
  match future prev with
  | [] => prev
  | next :: newFuture =>
      {| past := past prev ++ [present prev];
         present := next;
         future := newFuture |}
  end.

(** The updater of [clear], lines 100-107. *)
Definition clear (prev : HistoryState) : HistoryState :=
  {| past := past prev ++ [present prev]; present := []; future := [] |}.

Definition canUndo (st : HistoryState) : bool := (0 <? length (past st))%nat.
Definition canRedo (st : HistoryState) : bool := (0 <? length (future st))%nat.

Inductive Op : Type :=
| Push (newElements : Snapshot)
| Undo
| Redo
| Set_ (elements : Snapshot)
| Clear.

Definition apply (maxSize : Z) (op : Op) (st : HistoryState) : HistoryState :=
  match op with
  | Push newElements => push maxSize newElements st
  | Undo => undo st
  | Redo => redo st
  | Set_ elements => setElements elements st
  | Clear => clear st
  end.

Definition run (maxSize : Z) (ops : list Op) (st : HistoryState) : HistoryState :=
  foldl (λ st op, apply maxSize op st) st ops.

(** How many of the operations are clears. *)
Fixpoint clears (ops : list Op) : nat :=
  match ops with
  | [] => 0
  | Clear :: rest => S (clears rest)
  | _ :: rest => clears rest
  end.

End HistoryHook.

(** ** Whiteboard utilities (src/lib/whiteboard/utils.ts) *)

Module Utils.
Import JS History.

(** [Math.pow] and [Math.sqrt] are implementation-approximated; the other
    operations on numbers are those of binary64. *)
Class Math : Type := {
  Math_pow : number → number → number;
  Math_sqrt : number → number
}.

(** [Math.min] and [Math.max] of two numbers: [NaN] if either is, and [-0]
    below [+0]. *)
Definition Math_min (a b : number) : number :=
  if is_nan a || is_nan b then nan
  else if (a <? b)%float then a
  else if (b <? a)%float then b
  else if get_sign a then a else b.

Definition Math_max (a b : number) : number :=
  if is_nan a || is_nan b then nan
  else if (a <? b)%float then b
  else if (b <? a)%float then a
  else if get_sign a then b else a.

Section Geometry.
Context {M : Math}.

(** [distance], lines 16-18. *)
Definition distance (p1 p2 : Point) : number :=
  Math_sqrt (Math_pow (x p2 - x p1) 2 + Math_pow (y p2 - y p1) 2)%float.

(** [pointToSegmentDistance], lines 116-129. *)
Definition pointToSegmentDistance (p v w : Point) : number :=
  let l2 := (Math_pow (x w - x v) 2 + Math_pow (y w - y v) 2)%float in
  if (l2 =? 0)%float then distance p v
  else
    let t := (((x p - x v) * (x w - x v) + (y p - y v) * (y w - y v)) / l2)%float in
    let t := Math_max 0%float (Math_min 1%float t) in
    let projection :=
      {| x := (x v + t * (x w - x v))%float; y := (y v + t * (y w - y v))%float |} in
    distance p projection.

(** The loop of [isPointNearStroke] over the segments [points[i-1]],
    [points[i]]. *)
Fixpoint near_some_segment (p : Point) (points : list Point) (threshold : number)
    : bool :=
  match points with
  | p1 :: (p2 :: _) as rest =>
      if (pointToSegmentDistance p p1 p2 <? threshold)%float then true
      else near_some_segment p rest threshold
  | _ => false
  end.

(** [isPointNearStroke], lines 24-41. *)
Definition isPointNearStroke (p : Point) (element : WhiteboardElement)
    (threshold : number) : bool :=
  match points element with
  | None => false
  | Some pts =>
      if (length pts <? 2)%nat then false
      else near_some_segment p pts threshold
  end.

(** [isPointNearRectangle], lines 70-90. *)
Definition isPointNearRectangle (p start end_ : Point) (threshold : number) : bool :=
  let minX := Math_min (x start) (x end_) in
  let maxX := Math_max (x start) (x end_) in
  let minY := Math_min (y start) (y end_) in
  let maxY := Math_max (y start) (y end_) in
  let edges :=
    [ ({| x := minX; y := minY |}, {| x := maxX; y := minY |});
      ({| x := maxX; y := minY |}, {| x := maxX; y := maxY |});
      ({| x := maxX; y := maxY |}, {| x := minX; y := maxY |});
      ({| x := minX; y := maxY |}, {| x := minX; y := minY |}) ] in
  existsb (λ e, (pointToSegmentDistance p e.1 e.2 <? threshold)%float) edges.

(** [isPointNearEllipse], lines 95-111. *)
Definition isPointNearEllipse (p start end_ : Point) (threshold : number) : bool :=
  let centerX := ((x start + x end_) / 2)%float in
  let centerY := ((y start + y end_) / 2)%float in
  let radiusX := (abs (x end_ - x start) / 2)%float in
  let radiusY := (abs (y end_ - y start) / 2)%float in
  if (radiusX =? 0)%float || (radiusY =? 0)%float then false
  else
    let normalizedDist :=
      (Math_pow ((x p - centerX) / radiusX) 2
       + Math_pow ((y p - centerY) / radiusY) 2)%float in
    (abs (normalizedDist - 1) <? threshold * 10)%float.

(** [isPointNearShape], lines 46-65. *)
Definition isPointNearShape (p : Point) (element : WhiteboardElement)
    (threshold : number) : bool :=
  match startPoint element, endPoint element with
  | Some start, Some end_ =>
      match tool element with
      | rectangle => isPointNearRectangle p start end_ threshold
      | ellipse => isPointNearEllipse p start end_ threshold
      | line | arrow => (pointToSegmentDistance p start end_ <? threshold)%float
      | _ => false
      end
  | _, _ => false
  end.

(** [isPointInStickyNote], lines 150-159. *)
Definition isPointInStickyNote (p : Point) (element : WhiteboardElement) : bool :=
  match position element, size element with
  | Some pos, Some sz =>
      (x pos <=? x p)%float && (x p <=? x pos + w sz)%float
      && (y pos <=? y p)%float && (y p <=? y pos + h sz)%float
  | _, _ => false
  end.

(** [shouldEraseElement], lines 134-145. *)
Definition shouldEraseElement (p : Point) (element : WhiteboardElement)
    (threshold : number) : bool :=
  match type element with
  | stroke => isPointNearStroke p element threshold
  | shape => isPointNearShape p element threshold
  | sticky_note => isPointInStickyNote p element
  end.

(** The default [threshold = 0.02] and [tolerance = 0.001]. *)
Definition default_threshold : number := 0x1.47ae147ae147bp-6%float.
Definition default_tolerance : number := 0x1.0624dd2f1a9fcp-10%float.

(** The eraser of the canvas:
    [elements.find(el => shouldEraseElement(point, el))], and the id handed
    to [onEraseElement] if an element is found. *)
Definition erased_by_click (p : Point) (elements : list WhiteboardElement)
    : option string :=
  id <$> List.find (λ el, shouldEraseElement p el default_threshold) elements.

(** The loop of [simplifyPath], lines 196-202: the interior point farthest
    from the segment from [start] to [end_], and its distance. *)
Definition farthest (points : list Point) (start end_ : Point) : number * nat :=
  foldl
    (λ '(maxDist, maxIndex) i,
       match points !! i with
       | Some p =>
           let dist := pointToSegmentDistance p start end_ in
           if (maxDist <? dist)%float then (dist, i) else (maxDist, maxIndex)
       | None => (maxDist, maxIndex)
       end)
    (0%float, 0%nat) (seq 1 (length points - 2)).

(** [simplifyPath], lines 185-213.  [depth] is the depth of recursion the
    call stack allows: the result is [None] when the recursion goes deeper. *)
Fixpoint simplifyPath (depth : nat) (points : list Point) (tolerance : number)
    : option (list Point) :=
  match depth with
  | O => None
  | S depth =>
      if (length points <=? 2)%nat then Some points
      else
        match head points, last points with
        | Some start, Some end_ =>
            let '(maxDist, maxIndex) := farthest points start end_ in
            if (tolerance <? maxDist)%float then
              left ← simplifyPath depth (take (maxIndex + 1) points) tolerance;
              right ← simplifyPath depth (drop maxIndex points) tolerance;
              Some (removelast left ++ right)
            else Some [start; end_]
        | _, _ => Some points
        end
  end.

End Geometry.

(** The values of [t] in [for (let t = 0.2; t < 1; t += 0.2)]; [bound] caps
    the number of iterations. *)
Fixpoint spline_steps (bound : nat) (t : number) : list number :=
  match bound with
  | O => []
  | S bound =>
      if (t <? 1)%float
      then t :: spline_steps bound (t + 0x1.999999999999ap-3)%float
      else []
  end.

(** One coordinate of the Catmull-Rom point at [t], lines 237-249. *)
Definition catmull_rom (c0 c1 c2 c3 t : number) : number :=
  let t2 := (t * t)%float in
  let t3 := (t2 * t)%float in
  (0.5 * (2 * c1
          + (- c0 + c2) * t
          + (2 * c0 - 5 * c1 + 4 * c2 - c3) * t2
          + (- c0 + 3 * c1 - 3 * c2 + c3) * t3))%float.

(** The body of the outer loop of [smoothPath] at index [i]: the
    intermediate points between [points[i]] and [points[i + 1]].  [None]
    stands for the [TypeError] of reading a coordinate of [undefined]. *)
Definition spline_segment (points : list Point) (i : nat) : option (list Point) :=
  p0 ← points !! Nat.max 0 (i - 1);
  p1 ← points !! i;
  p2 ← points !! Nat.min (length points - 1) (i + 1);
  p3 ← points !! Nat.min (length points - 1) (i + 2);
  Some ((λ t, {| x := catmull_rom (x p0) (x p1) (x p2) (x p3) t;
                 y := catmull_rom (y p0) (y p1) (y p2) (y p3) t |})
          <$> spline_steps 8 0x1.999999999999ap-3%float).

(** [smoothPath], lines 218-256; [tension] is not used by the body. *)
Definition smoothPath (points : list Point) (tension : number)
    : option (list Point) :=
  if (length points <? 3)%nat then Some points
  else
    first ← points !! 0%nat;
    middle ← mapM (spline_segment points) (seq 0 (length points - 1));
    final ← points !! (length points - 1)%nat;
    Some (first :: concat middle ++ [final]).

(** A [Math] for the examples: squares by multiplication, and the square
    root of binary64. *)
Definition plain_math : Math :=
  {| Math_pow := λ a _, (a * a)%float; Math_sqrt := sqrt |}.

Definition pt (a b : number) : Point := {| x := a; y := b |}.

End Utils.

(** * Properties *)

(** ** Whiteboard sync *)

Module JSONFacts.
Import JS.

(** What JSON does to the numbers it cannot write, and to one it can. *)
Example numbers_through_JSON :
  JSON_number (num nan) = null
  ∧ JSON_number (num infinity) = null
  ∧ JSON_number (num neg_infinity) = null
  ∧ JSON_number (num (-0)%float) = num 0%float
  ∧ JSON_number (num 0.25%float) = num 0.25%float
  ∧ JSON_number null = null.
Proof. repeat split. Qed.

(** The numbers that JSON carries unchanged: the finite ones, negative zero
    excepted. *)
Lemma JSON_safe_number (n : number) :
  JSON_safe (num n)
  ↔ is_finite n = true ∧ (is_zero n = true → n = 0%float).
Proof.
  unfold JSON_safe, through_JSON, Numeric_JSON, JSON_number, is_finite.
  destruct (is_nan n || is_infinity n); simpl.
  { split; [discriminate | by intros [? _]]. }
  destruct (is_zero n).
  - split.
    + intros H. split; [done|]. intros _.
      exact (f_equal (λ v, match v with num m => m | null => n end) (eq_sym H)).
    + intros [_ H]. by rewrite (H eq_refl).
  - split; [by intros _; split | done].
Qed.

(** A payload built from a value that JSON carries unchanged is read as that
    value. *)
Lemma stringify_safe {J : Type} `{!JSON J} (json : J) :
  JSON_safe json → stringify json = encode json.
Proof. intros H. unfold stringify. by rewrite H. Qed.

End JSONFacts.

Module LiveKitFacts.
Import LiveKit.

Lemma same_identity_true (a b : option Participant) :
  same_identity a b = true ↔ identity_of a = identity_of b.
Proof. unfold same_identity. apply bool_decide_eq_true. Qed.

End LiveKitFacts.

Module WhiteboardFacts.
Import JS LiveKit Whiteboard.

Lemma same_identity_remote (room : Room) (participant : option Participant) :
  remote room participant → same_identity participant (localParticipant room) = false.
Proof. intros Hr. unfold same_identity. by apply bool_decide_eq_false. Qed.

Lemma truthy_Some (i : string) : truthy (Some i) = true ↔ i ≠ "".
Proof.
  simpl. rewrite negb_true_iff. split.
  - intros H ->. by rewrite String.eqb_refl in H.
  - intros H. by apply String.eqb_neq.
Qed.

(** Every handler of an edit changes [strokes] as [edited] says and, on a
    connected room, publishes exactly the edit's envelope, reliably; on a
    connected room without a local participant the call throws and the
    handler's [catch] writes its warning. *)
Lemma local_handler_spec (room : Room) (op : Op) (st : State) :
  local_handler room op st =
    (setStrokes (edited op) st,
     if is_connected (state room)
     then match localParticipant room with
          | Some _ => [publishData (stringify (message op)) true WHITEBOARD]
          | None => [console_warn (warning op)]
          end
     else []).
Proof.
  destruct op; simpl; unfold handleAddStroke, handleRemoveStroke, handleClear;
    destruct (is_connected (state room)); simpl; try done;
    by destruct (localParticipant room).
Qed.

(** What the receiver makes of a well-formed envelope from a remote sender. *)
Lemma handleData_remote (room : Room) (json : Json)
    (participant : option Participant) (st : State) :
  remote room participant →
  handleData room (encode json) participant (Some WHITEBOARD) st =
    match json with
    | stroke_msg data => (setStrokes (λ prev, prev ++ [data]) st, [])
    | clear_msg => (setStrokes (λ _, []) st, [])
    | sync_request_msg =>
        if (0 <? length (strokesRef st))%nat && is_connected (state room)
        then
          match localParticipant room with
          | Some _ =>
              (st, [publishData (stringify (sync_response_msg (Some (strokesRef st))))
                      true WHITEBOARD])
          | None => (st, [console_error "Error decoding whiteboard data"])
          end
        else (st, [])
    | remove_msg i =>
        if truthy i then (setStrokes (without (default "" i)) st, []) else (st, [])
    | sync_response_msg (Some received) => (setStrokes (λ _, received) st, [])
    | sync_response_msg None => (st, [])
    | other_msg => (st, [])
    end.
Proof.
  intros Hr. unfold handleData.
  rewrite bool_decide_eq_true_2; [|done]. simpl.
  rewrite (same_identity_remote _ _ Hr).
  destruct json as [| | |i|[]|]; simpl; try done.
  - destruct (_ && _); [|done]. by destruct (localParticipant room).
  - by destruct (truthy i).
Qed.

Lemma receive_edit (room : Room) (sender : Participant) (op : Op) (st : State) :
  remote room (Some sender) →
  nonempty_remove op →
  strokes (receive room sender (publishData (encode (message op)) true WHITEBOARD) st)
  = edited op (strokes st).
Proof.
  intros Hr Hne. unfold receive. rewrite handleData_remote; [|done].
  destruct op as [s|i|]; simpl; try done.
  apply truthy_Some in Hne. simpl in Hne. by rewrite Hne.
Qed.

(** C1, as stated, fails: alice erases the stroke with the empty id through
    [handleRemoveStroke], which filters it out of her list; bob's
    [handleData] receives her 'remove' envelope in order and keeps the stroke,
    because the empty id is falsy. *)
Lemma remove_of_empty_id_diverges :
  strokes (run_local alice_room [Remove ""] (board [nameless])).1 = []
  ∧ strokes (receive_all bob_room alice
               (run_local alice_room [Remove ""] (board [nameless])).2
               (board [nameless])) = [nameless].
Proof. split; reflexivity. Qed.

(** The same for a number that JSON cannot write: alice adds a stroke
    through a point whose [y] is NaN and holds it as drawn; bob reads [null]
    in its place. *)
Example nan_arrives_as_null :
  strokes (run_local alice_room [Add broken] (board [])).1 = [broken]
  ∧ strokes (receive_all bob_room alice
               (run_local alice_room [Add broken] (board [])).2 (board []))
    = [through_JSON broken]
  ∧ points (through_JSON broken) = [ {| x := num 0.25%float; y := null |} ]
  ∧ points broken = [ {| x := num 0.25%float; y := num nan |} ].
Proof. repeat split. Qed.

(** C1 (amended): from equal lists, every sequence of adds of strokes that
    JSON carries unchanged, removes of non-empty ids, and clears leaves the
    editor (through the local handlers) and a receiver of its messages,
    delivered in order (through [handleData]), with identical lists. *)
Theorem local_and_remote_agree (editor receiver : Room) (sender : Participant)
    (ops : list Op) (stE stR : State) :
  is_connected (state editor) = true →
  localParticipant editor = Some sender →
  remote receiver (Some sender) →
  Forall nonempty_remove ops →
  Forall (λ op, JSON_safe (message op)) ops →
  strokes stE = strokes stR →
  strokes (run_local editor ops stE).1
  = strokes (receive_all receiver sender (run_local editor ops stE).2 stR).
Proof.
  intros Hconn Hlocal Hremote Hops Hsafe. revert stE stR.
  induction ops as [|op ops IH]; intros stE stR Heq; [done|].
  apply Forall_cons in Hops as [Hop Hops]. apply Forall_cons in Hsafe as [Hs Hsafe].
  simpl. rewrite local_handler_spec, Hconn, Hlocal.
  destruct (run_local editor ops (commit (setStrokes (edited op) stE)))
    as [stE' out] eqn:Hrun.
  simpl.
  specialize (IH Hops Hsafe (commit (setStrokes (edited op) stE))
                 (receive receiver sender
                    (publishData (stringify (message op)) true WHITEBOARD) stR)).
  rewrite Hrun in IH. apply IH.
  rewrite (JSONFacts.stringify_safe _ Hs).
  rewrite receive_edit; [|done..]. simpl. by rewrite Heq.
Qed.

Lemma local_and_remote_agree_witness :
  strokes (run_local alice_room [Add s1; Add s2; Remove "a1"; Clear; Add nameless]
             (board [])).1
  = strokes (receive_all bob_room alice
               (run_local alice_room [Add s1; Add s2; Remove "a1"; Clear; Add nameless]
                  (board [])).2
               (board [])).
Proof.
  apply (local_and_remote_agree alice_room bob_room alice
           [Add s1; Add s2; Remove "a1"; Clear; Add nameless] (board []) (board [])).
  - reflexivity.
  - reflexivity.
  - unfold remote. simpl. discriminate.
  - repeat constructor; simpl; discriminate.
  - repeat constructor.
  - reflexivity.
Defined.

(** *** Sync-response: the whole list is replaced *)

(** C2: whatever the list was, whatever edits the participant made before
    ([ops], through the local handlers), and however many sync-responses it
    has handled already ([earlier]), a sync-response that carries a list,
    received from a remote sender, leaves exactly the carried list. *)
Theorem sync_response_replaces (room : Room) (participant : option Participant)
    (st : State) (received : list Stroke) :
  remote room participant →
  handleData room (encode (sync_response_msg (Some received))) participant
    (Some WHITEBOARD) st
  = (setStrokes (λ _, received) st, [])
  ∧ (∀ ops : list Op,
       strokes (handleData room (encode (sync_response_msg (Some received)))
                  participant (Some WHITEBOARD) (run_local room ops st).1).1
       = received)
  ∧ (∀ earlier : list Stroke,
       strokes (handleData room (encode (sync_response_msg (Some received)))
                  participant (Some WHITEBOARD)
                  (handleData room (encode (sync_response_msg (Some earlier)))
                     participant (Some WHITEBOARD) st).1).1
       = received).
Proof.
  intros Hr. split; [|split]; intros; by rewrite !handleData_remote.
Qed.

Lemma sync_response_replaces_witness :
  strokes (handleData bob_room (encode (sync_response_msg (Some [s2]))) (Some alice)
             (Some WHITEBOARD) (run_local bob_room [Add s1; Add nameless] (board [])).1).1
  = [s2].
Proof.
  apply (sync_response_replaces bob_room (Some alice) (board []) [s2]).
  unfold remote. simpl. discriminate.
Defined.

(** *** Sync-request: answered with the list of the ref *)


(** Without a local participant the call of [publishData] throws inside the
    [try]: the handler logs and publishes nothing. *)
Lemma sync_request_without_participant (participant : option Participant)
    (st : State) :
  identity_of participant ≠ None →
  strokesRef st ≠ [] →
  handleData {| state := connected; localParticipant := None |}
    (encode sync_request_msg) participant (Some WHITEBOARD) st
  = (st, [console_error "Error decoding whiteboard data"]).
Proof.
  intros Hr Href. rewrite handleData_remote by done. simpl.
  by destruct (strokesRef st).
Qed.




(** *** Uniqueness of ids *)

(** An edit either changes the list as [edited] says or, when the receiver
    drops the message, leaves it as it was. *)
Lemma edit_strokes (room : Room) (sender : Participant) (e : Origin * Op)
    (st : State) :
  strokes (edit room sender e st) = edited e.2 (strokes st)
  ∨ strokes (edit room sender e st) = strokes st.
Proof.
  destruct e as [[] op]; unfold edit; simpl.
  - left. by rewrite local_handler_spec.
  - unfold handleData. rewrite bool_decide_eq_true_2; [|done]. simpl.
    destruct (same_identity _ _); [by right|].
    destruct op as [s|i|]; simpl; [by left| |by left].
    destruct (negb (i =? ""))%string; [by left | by right].
Qed.

Lemma edited_NoDup (op : Op) (l : list Stroke) :
  NoDup (id <$> l) →
  match op with Add s => id s ∉ id <$> l | _ => True end →
  NoDup (id <$> edited op l).
Proof.
  intros Hl Hfresh. destruct op as [s|i|]; simpl.
  - rewrite fmap_app. apply NoDup_app. split; [done|]. split.
    + intros j Hj Hin. apply list_elem_of_singleton in Hin. by subst.
    + apply NoDup_singleton.
  - apply (sublist_NoDup _ (id <$> l)); [exact Hl|].
    apply fmap_sublist, sublist_filter.
  - apply NoDup_nil_2.
Qed.

(** C4, as stated, fails: the same 'stroke' envelope handled twice is
    appended twice, and so is a stroke drawn here whose id has already
    arrived from there. *)
Lemma stroke_received_twice_duplicates :
  strokes (edits bob_room alice [(there, Add s1); (there, Add s1)] (board []))
  = [s1; s1]
  ∧ ¬ NoDup (ids (edits bob_room alice [(there, Add s1); (there, Add s1)] (board [])))
  ∧ ¬ NoDup (ids (edits bob_room alice [(there, Add s1); (here, Add s1)] (board []))).
Proof.
  split; [reflexivity|]. split; intros H; vm_compute in H;
    apply NoDup_cons_1_1 in H; apply H; by left.
Qed.

(** C4 (amended): if the ids are unique to begin with and every add, local
    or remote, brings an id that the list does not hold when the add is
    applied, then after any sequence of adds, removes and clears, local and
    remote, no two elements of the list share an id. *)
Theorem ids_stay_unique (room : Room) (sender : Participant)
    (es : list (Origin * Op)) (st : State) :
  NoDup (ids st) →
  fresh_adds room sender es st →
  NoDup (ids (edits room sender es st)).
Proof.
  revert st. induction es as [|e es IH]; intros st Hst Hfresh; [done|].
  destruct Hfresh as [He Hes]. simpl. apply IH; [|done].
  unfold ids in *. destruct (edit_strokes room sender e st) as [-> | ->]; [|done].
  by apply edited_NoDup.
Qed.

Lemma ids_stay_unique_witness :
  NoDup (ids (edits bob_room alice
                [(there, Add s1); (here, Add s2); (there, Remove "a1"); (here, Add s1)]
                (board []))).
Proof.
  apply (ids_stay_unique bob_room alice
           [(there, Add s1); (here, Add s2); (there, Remove "a1"); (here, Add s1)]
           (board [])).
  - apply NoDup_nil_2.
  - simpl. repeat split.
    + apply not_elem_of_nil.
    + intros [=]%list_elem_of_singleton.
    + intros [=]%list_elem_of_singleton.
Defined.

(** *** The late joiner *)

(** alice has drawn [s1]; bob joins with an empty board and asks for a sync;
    alice answers with her whole list, and bob's list is then exactly
    [[s1]]. *)
Example late_joiner :
  let request := requestSync false bob_room in
  let alice_after := run_local alice_room [Add s1] (board []) in
  let answer :=
    match request with
    | [publishData payload _ topic] =>
        (handleData alice_room payload (Some bob) (Some topic) (commit alice_after.1)).2
    | _ => []
    end in
  answer = [publishData (stringify (sync_response_msg (Some [s1]))) true WHITEBOARD]
  ∧ strokes (receive_all bob_room alice answer (board [])) = [s1].
Proof. split; reflexivity. Qed.

(** Both clear at once: each board is empty afterwards. *)
Example both_clear :
  let a := run_local alice_room [Clear] (board [s1; s2]) in
  let b := run_local bob_room [Clear] (board [s1; s2]) in
  strokes (receive_all alice_room bob b.2 (commit a.1)) = []
  ∧ strokes (receive_all bob_room alice a.2 (commit b.1)) = [].
Proof. split; reflexivity. Qed.

End WhiteboardFacts.


(** ** The document bridge *)

Module ProviderFacts.
Import JS LiveKit Provider.

Section Bridge.
Context {Y : Yjs}.










End Bridge.



End ProviderFacts.
(** ** Cursor presence *)

Module PresenceFacts.
Import JS LiveKit Presence.
Local Open Scope Z_scope.

(** *** Colours *)

(** "a" hashes to 97 and "ab" to 98 + (97 * 32 - 97) = 3105; both are 1
    modulo 8. *)
Example color_of_a : getParticipantColor "a" = "#f97316".
Proof. reflexivity. Qed.

Example color_of_ab : getParticipantColor "ab" = "#f97316".
Proof. reflexivity. Qed.

(** Outside ASCII the hash runs over UTF-16 code units: U+00E9 is the one
    unit 233, which is 1 modulo 8; U+1F600 is the pair 55357, 56832, and
    56832 + (55357 * 32 - 55357) = 1772899 is 3 modulo 8. *)
Example color_of_e_acute :
  charCodes e_acute = [233] ∧ getParticipantColor e_acute = "#f97316".
Proof. split; reflexivity. Qed.

Example color_of_grinning_face :
  charCodes grinning_face = [55357; 56832]
  ∧ getParticipantColor grinning_face = "#22c55e".
Proof. split; reflexivity. Qed.

(** A fresh cursor is entered under the sender's identity, stamped with the
    clock; a packet without a participant makes the updater throw. *)
Example cursor_received :
  handleData erin_hook 5000 (encode p1) (Some frank) (Some PRESENCE_TOPIC) ∅
  = Return (<["frank" := cursor_of "frank" p1 5000]> ∅, []).
Proof. reflexivity. Qed.

Example cursor_without_participant :
  handleData erin_hook 5000 (encode p1) None (Some PRESENCE_TOPIC) ∅
  = Throw "TypeError".
Proof. reflexivity. Qed.

(** *** The stale-cursor sweep *)

(** The loop of the sweep, started on a copy of [m0] and run over the keys of
    [m]: the keys of [m] that are stale are gone from the copy, everything
    else is as in [m0], and without changes the copy is [m0]. *)
Lemma sweep_loop (now : Z) (m0 m : CursorMap) :
  let r :=
    map_fold
      (λ identity cursor '(updated, hasChanges),
         if CURSOR_STALE_MS <? now - timestamp cursor
         then (delete identity updated, true)
         else (updated, hasChanges))
      (m0, false) m in
  (∀ who, r.1 !! who =
          match m !! who with
          | Some c => if stale now c then None else m0 !! who
          | None => m0 !! who
          end)
  ∧ (r.2 = false → r.1 = m0).
Proof.
  apply (map_fold_weak_ind (λ r m,
    (∀ who, r.1 !! who =
            match m !! who with
            | Some c => if stale now c then None else m0 !! who
            | None => m0 !! who
            end)
    ∧ (r.2 = false → r.1 = m0))).
  - split; [|done]. intros who. by rewrite lookup_empty.
  - intros i c m' [updated hasChanges] Hi [IH1 IH2]. simpl in *.
    unfold stale in *.
    destruct (CURSOR_STALE_MS <? now - timestamp c) eqn:Hc; simpl.
    + split; [|done]. intros who.
      destruct (decide (i = who)) as [->|Hne].
      * rewrite lookup_delete_eq, lookup_insert_eq. by rewrite Hc.
      * rewrite lookup_delete_ne, lookup_insert_ne by done. apply IH1.
    + split; [|done]. intros who.
      destruct (decide (i = who)) as [->|Hne].
      * rewrite lookup_insert_eq, Hc. specialize (IH1 who). by rewrite Hi in IH1.
      * rewrite lookup_insert_ne by done. apply IH1.
Qed.

(** The sweep keeps exactly the entries that are not stale. *)
Lemma sweep_lookup (now : Z) (prev : CursorMap) (who : string) :
  sweep now prev !! who =
    match prev !! who with
    | Some c => if stale now c then None else Some c
    | None => None
    end.
Proof.
  unfold sweep. pose proof (sweep_loop now prev prev) as Hloop. simpl in Hloop.
  destruct (map_fold _ _ _) as [updated hasChanges]. simpl in Hloop.
  destruct Hloop as [H1 H2]. destruct hasChanges.
  - rewrite H1. destruct (prev !! who) eqn:E; [|done]. by destruct (stale now p).
  - rewrite <- (H2 eq_refl) at 1. rewrite H1.
    destruct (prev !! who) eqn:E; [|done]. by destruct (stale now p).
Qed.

(** C6: after the sweep run at clock reading [now], an entry whose
    timestamp is more than 3000 ms before [now] is absent from the map, and
    an entry whose timestamp is at most 3000 ms before [now] is in the map
    unchanged. *)
Theorem sweep_removes_stale (now : Z) (prev : CursorMap) (who : string)
    (c : ParticipantCursor) :
  prev !! who = Some c →
  (now - timestamp c > 3000 → sweep now prev !! who = None)
  ∧ (now - timestamp c ≤ 3000 → sweep now prev !! who = Some c).
Proof.
  intros Hc. rewrite sweep_lookup, Hc. unfold stale, CURSOR_STALE_MS.
  split; intros Hage.
  - by rewrite (proj2 (Z.ltb_lt _ _)) by lia.
  - by rewrite (proj2 (Z.ltb_ge _ _)) by lia.
Qed.

Lemma sweep_removes_stale_witness :
  sweep 10000 (<["erin" := cursor_of "erin" p1 6999]>
               (<["frank" := cursor_of "frank" p2 7000]> ∅)) !! "erin" = None
  ∧ sweep 10000 (<["erin" := cursor_of "erin" p1 6999]>
                 (<["frank" := cursor_of "frank" p2 7000]> ∅)) !! "frank"
    = Some (cursor_of "frank" p2 7000).
Proof.
  split.
  - apply (sweep_removes_stale 10000 _ "erin" (cursor_of "erin" p1 6999)).
    + reflexivity.
    + simpl. lia.
  - apply (sweep_removes_stale 10000 _ "frank" (cursor_of "frank" p2 7000)).
    + reflexivity.
    + simpl. lia.
Defined.

(** *** The throttled broadcast *)

Lemma run_app (hook : Hook) (events1 events2 : list Event) (b : Browser) :
  run hook (events1 ++ events2) b =
    let '(b1, out1) := run hook events1 b in
    let '(b2, out2) := run hook events2 b1 in
    (b2, out1 ++ out2).
Proof.
  revert b. induction events1 as [|e events1 IH]; intros b; simpl.
  - by destruct (run hook events2 b).
  - destruct (step hook e b) as [b1 out1]. rewrite IH.
    destruct (run hook events1 b1) as [b2 out2].
    destruct (run hook events2 b2) as [b3 out3]. by rewrite app_assoc.
Qed.

(** One event: either nothing is sent and the time of the last send stays,
    or one packet is sent, at least the interval after the last send, and
    the time of the last send becomes the time of this one. *)
Lemma step_sends (hook : Hook) (e : Event) (b : Browser) :
  let '(b', out) := step hook e b in
  (out = [] ∧ lastBroadcastRef (refs b') = lastBroadcastRef (refs b))
  ∨ (∃ now pos,
       e = frame now
       ∧ out = [(now, cursor_packet pos)]
       ∧ pendingPositionRef (refs b) = Some pos
       ∧ BROADCAST_INTERVAL_MS ≤ now - lastBroadcastRef (refs b)
       ∧ lastBroadcastRef (refs b') = now).
Proof.
  destruct e as [t position | now]; simpl.
  - left. split; [done|]. unfold broadcastCursor.
    destruct (negb (enabled hook) || _); [done|].
    by destruct (animationFrameRef (refs b)).
  - destruct (animationFrameRef (refs b)); [|by left].
    unfold onAnimationFrame. simpl.
    destruct (now - lastBroadcastRef (refs b) <? BROADCAST_INTERVAL_MS) eqn:Hnow;
      simpl; [by left|].
    destruct (pendingPositionRef (refs b)) as [pos|]; simpl; [|by left].
    right. exists now, pos. apply Z.ltb_ge in Hnow. by repeat split.
Qed.

Lemma last_cons_default (x d : Z) (l : list Z) :
  List.last (x :: l) d = List.last l x.
Proof.
  revert x d. induction l as [|y l IH]; intros x d; [done|].
  change (List.last (y :: l) d = List.last (y :: l) x). by rewrite !IH.
Qed.

Lemma spaced_app (last : Z) (times1 times2 : list Z) :
  spaced last times1 →
  spaced (List.last times1 last) times2 →
  spaced last (times1 ++ times2).
Proof.
  revert last. induction times1 as [|t times1 IH]; intros last H1 H2; [done|].
  destruct H1 as [Ht H1]. simpl. split; [done|]. apply IH; [done|].
  by rewrite <- (last_cons_default t last).
Qed.

Lemma run_spaced (hook : Hook) (events : list Event) (b : Browser) :
  spaced (lastBroadcastRef (refs b)) (send_times (run hook events b).2)
  ∧ lastBroadcastRef (refs (run hook events b).1)
    = List.last (send_times (run hook events b).2) (lastBroadcastRef (refs b)).
Proof.
  revert b. induction events as [|e events IH]; intros b; [done|].
  simpl. pose proof (step_sends hook e b) as Hstep.
  destruct (step hook e b) as [b1 out1]. specialize (IH b1).
  destruct (run hook events b1) as [b2 out2]. simpl in *.
  unfold send_times in *. rewrite fmap_app.
  destruct Hstep as [[-> Hlast] | (now & pos & _ & -> & _ & Hnow & Hlast)]; simpl.
  - by rewrite <- Hlast.
  - rewrite Hlast in IH. destruct IH as [IH1 IH2]. split; [done|].
    rewrite IH2. symmetry. apply (last_cons_default now).
Qed.

Lemma spaced_after (last : Z) (times : list Z) (t : Z) :
  spaced last times → t ∈ times → BROADCAST_INTERVAL_MS ≤ t - last.
Proof.
  revert last. induction times as [|t' times IH]; intros last Hs Ht.
  - by apply not_elem_of_nil in Ht.
  - destruct Hs as [Ht' Hs]. apply elem_of_cons in Ht as [->|Ht]; [done|].
    specialize (IH t' Hs Ht). unfold BROADCAST_INTERVAL_MS in *. lia.
Qed.

Lemma spaced_pairwise (last : Z) (times : list Z) (i j : nat) (ti tj : Z) :
  spaced last times → (i < j)%nat →
  times !! i = Some ti → times !! j = Some tj →
  BROADCAST_INTERVAL_MS ≤ tj - ti.
Proof.
  revert last i j. induction times as [|t times IH]; intros last i j Hs Hij Hi Hj.
  - done.
  - destruct Hs as [Ht Hs]. destruct j as [|j]; [lia|]. simpl in Hj.
    destruct i as [|i]; simpl in Hi.
    + injection Hi as ->. apply (spaced_after ti times tj Hs).
      by apply list_elem_of_lookup_2 in Hj.
    + apply (IH t i j); [done | lia | done | done].
Qed.

(** With the hook enabled, the pending position is that of the latest
    call. *)
Lemma run_pending (hook : Hook) (events : list Event) (b : Browser) :
  enabled hook = true → is_Some (localParticipant hook) →
  pendingPositionRef (refs (run hook events b).1) =
    match last (calls_only events) with
    | Some c => Some c.2
    | None => pendingPositionRef (refs b)
    end.
Proof.
  intros Hen Hlp. revert b. induction events as [|e events IH]; intros b; [done|].
  simpl. destruct (step hook e b) as [b1 out1] eqn:Hstep. specialize (IH b1).
  destruct (run hook events b1) as [b2 out2]. simpl in *. rewrite IH.
  destruct e as [t position | now]; simpl in *.
  - rewrite last_cons. destruct (last (calls_only events)); [done|].
    injection Hstep as <- _. simpl. unfold broadcastCursor. rewrite Hen.
    rewrite bool_decide_eq_true_2 by done. simpl.
    by destruct (animationFrameRef (refs b)).
  - destruct (last (calls_only events)); [done|].
    destruct (animationFrameRef (refs b)); [|by injection Hstep as <- _].
    unfold onAnimationFrame in Hstep.
    destruct (_ <? _); [by injection Hstep as <- _|].
    destruct (pendingPositionRef (refs b)) eqn:Hp; injection Hstep as <- _; by simpl.
Qed.

Lemma calls_only_burst (calls : list (Z * CursorPosition)) :
  calls_only (burst calls) = calls.
Proof.
  induction calls as [|[t p] calls IH]; [done|].
  change (calls_only (burst ((t, p) :: calls))) with ((t, p) :: calls_only (burst calls)).
  by rewrite IH.
Qed.

(** A burst sends nothing, leaves the time of the last send alone, and, if
    it is not empty, leaves a frame requested. *)
Lemma run_burst (hook : Hook) (calls : list (Z * CursorPosition)) (b : Browser) :
  enabled hook = true → is_Some (localParticipant hook) →
  (run hook (burst calls) b).2 = []
  ∧ lastBroadcastRef (refs (run hook (burst calls) b).1) = lastBroadcastRef (refs b)
  ∧ (calls ≠ [] ∨ is_Some (animationFrameRef (refs b)) →
     is_Some (animationFrameRef (refs (run hook (burst calls) b).1))).
Proof.
  intros Hen Hlp. revert b. induction calls as [|[t p] calls IH]; intros b.
  { simpl. repeat split; try done. by intros [?|?]. }
  simpl. set (b1 := {| refs := _; nextHandle := _ |}). specialize (IH b1).
  destruct (run hook (burst calls) b1) as [b2 out2]. simpl in *.
  destruct IH as (-> & -> & IH). repeat split; try done.
  - subst b1. simpl. unfold broadcastCursor. rewrite Hen.
    rewrite bool_decide_eq_true_2 by done. simpl.
    by destruct (animationFrameRef (refs b)).
  - intros _. apply IH. right. subst b1. simpl. unfold broadcastCursor.
    rewrite Hen. rewrite bool_decide_eq_true_2 by done. simpl.
    by destruct (animationFrameRef (refs b)).
Qed.

(** Any number of calls, then the frame. *)
Lemma burst_then_frame (hook : Hook) (calls : list (Z * CursorPosition))
    (now t : Z) (p : CursorPosition) (b : Browser) :
  enabled hook = true → is_Some (localParticipant hook) →
  last calls = Some (t, p) →
  (run hook (burst calls ++ [frame now]) b).2 =
    if now - lastBroadcastRef (refs b) <? BROADCAST_INTERVAL_MS
    then []
    else [(now, cursor_packet p)].
Proof.
  intros Hen Hlp Hlast. rewrite run_app.
  pose proof (run_burst hook calls b Hen Hlp) as (Hout & Hb & Hframe).
  pose proof (run_pending hook (burst calls) b Hen Hlp) as Hpending.
  rewrite calls_only_burst, Hlast in Hpending.
  destruct (run hook (burst calls) b) as [b1 out1]. simpl in *. subst out1.
  destruct Hframe as [h Hh]. { left. by intros ->. }
  rewrite Hh. unfold onAnimationFrame. rewrite Hb.
  destruct (_ <? _); [done|]. by rewrite Hpending.
Qed.

Lemma p1_is_not_p2 : p1 ≠ p2.
Proof.
  intros H.
  assert (Heq : match x p1 with
                | num n => PrimFloat.eqb n 0.75
                | null => false
                end = true) by (rewrite H; reflexivity).
  vm_compute in Heq. discriminate.
Qed.

(** C5, as stated, fails on its scenario.  One hundred calls within
    sixteen milliseconds, the first ones in this session: the display
    refreshes after the fiftieth, that frame sends the fiftieth position, and
    the frame after the hundredth comes within 33 ms of that send and sends
    nothing, so the one send does not carry the last position.  And one
    hundred calls within one frame, ten milliseconds after a send: their
    frame comes within 33 ms of it and nothing is sent at all. *)
Lemma hundred_calls_can_miss_the_last :
  (length (calls_only hundred_calls_two_frames) = 100%nat
   ∧ within 1000 16 hundred_calls_two_frames
   ∧ (run erin_hook hundred_calls_two_frames start).2 = [(1008, cursor_packet p1)]
   ∧ last (calls_only hundred_calls_two_frames) = Some (1012, p2)
   ∧ p1 ≠ p2)
  ∧ (length (calls_only hundred_calls_one_frame) = 100%nat
     ∧ within 1000 16 hundred_calls_one_frame
     ∧ (run erin_hook hundred_calls_one_frame after_a_send).2 = []).
Proof.
  split.
  - split; [reflexivity|]. split.
    { unfold within. vm_compute calls_only. repeat constructor; simpl; lia. }
    split; [reflexivity|]. split; [reflexivity | exact p1_is_not_p2].
  - split; [reflexivity|]. split; [|reflexivity].
    unfold within. vm_compute calls_only. repeat constructor; simpl; lia.
Qed.

(** Once no frame is requested, frames that run do nothing until the next
    call. *)
Lemma run_frames_idle (hook : Hook) (times : list Z) (b : Browser) :
  animationFrameRef (refs b) = None →
  run hook (frames times) b = (b, []).
Proof.
  intros Hnone. induction times as [|t times IH]; [done|].
  simpl. rewrite Hnone. change (frame <$> times) with (frames times).
  by rewrite IH.
Qed.

(** The frame that runs clears the request, whether it sends or not. *)
Lemma frame_clears_request (hook : Hook) (now : Z) (b : Browser) :
  animationFrameRef (refs (step hook (frame now) b).1) = None.
Proof.
  simpl. destruct (animationFrameRef (refs b)) eqn:Hr; [|done].
  unfold onAnimationFrame. destruct (_ <? _); [done|].
  by destruct (pendingPositionRef (refs b)).
Qed.

(** C5 (amended): with the hook enabled,
    - any number of calls made before the requested animation frame runs
      cause at most one send, when that frame runs, and it carries the
      position of the latest call; it is made if the frame runs at least
      33 ms after the previous send, and otherwise nothing is sent; the
      frames that run after it send nothing more, no frame is requested any
      longer, and the next call requests one again;
    - in any run, a later send is made at least 33 ms after an earlier one;
    - one hundred calls before the first frame of the session, whose clock
      reads at least 33, cause exactly one send, carrying the last position;
    - whenever a frame sends, it sends the position of the latest call. *)
Theorem cursor_broadcast_throttled (hook : Hook) :
  enabled hook = true →
  is_Some (localParticipant hook) →
  (∀ (b : Browser) (calls : list (Z * CursorPosition)) (now t : Z) (p : CursorPosition)
     (later : list Z),
     last calls = Some (t, p) →
     let after := run hook (burst calls ++ [frame now] ++ frames later) b in
     after.2 =
       (if now - lastBroadcastRef (refs b) <? 33 then [] else [(now, cursor_packet p)])
     ∧ animationFrameRef (refs after.1) = None
     ∧ (∀ (t' : Z) (p' : CursorPosition),
          animationFrameRef (refs (step hook (call t' p') after.1).1)
          = Some (nextHandle after.1)))
  ∧ (∀ (b : Browser) (events : list Event) (i j : nat) (ti tj : Z),
       (i < j)%nat →
       send_times (run hook events b).2 !! i = Some ti →
       send_times (run hook events b).2 !! j = Some tj →
       33 ≤ tj - ti)
  ∧ (∀ (calls : list (Z * CursorPosition)) (now t : Z) (p : CursorPosition),
       length calls = 100%nat →
       last calls = Some (t, p) →
       33 ≤ now →
       (run hook (burst calls ++ [frame now]) start).2 = [(now, cursor_packet p)])
  ∧ (∀ (events : list Event) (now : Z) (s : Z * Effect Payload),
       s ∈ (step hook (frame now) (run hook events start).1).2 →
       ∃ t p, last (calls_only events) = Some (t, p) ∧ s = (now, cursor_packet p)).
Proof.
  intros Hen Hlp. split; [|split; [|split]].
  - intros b calls now t p later Hlast after. subst after.
    rewrite app_assoc, run_app.
    pose proof (burst_then_frame hook calls now t p b Hen Hlp Hlast) as Hsends.
    assert (Hclear : animationFrameRef
                       (refs (run hook (burst calls ++ [frame now]) b).1) = None).
    { rewrite run_app. destruct (run hook (burst calls) b) as [b1 out1].
      pose proof (frame_clears_request hook now b1) as Hc.
      cbn [run]. destruct (step hook (frame now) b1) as [b2 out2]. done. }
    destruct (run hook (burst calls ++ [frame now]) b) as [b1 out1].
    simpl in Hsends, Hclear. rewrite (run_frames_idle hook later b1 Hclear).
    simpl. rewrite app_nil_r. split; [exact Hsends|]. split; [exact Hclear|].
    intros t' p'. unfold broadcastCursor. rewrite Hen.
    rewrite bool_decide_eq_true_2 by done. simpl. by rewrite Hclear.
  - intros b events i j ti tj Hij Hi Hj.
    destruct (run_spaced hook events b) as [Hs _].
    exact (spaced_pairwise _ _ i j ti tj Hs Hij Hi Hj).
  - intros calls now t p _ Hlast Hnow.
    rewrite (burst_then_frame hook calls now t p start Hen Hlp Hlast). simpl.
    unfold BROADCAST_INTERVAL_MS. by rewrite (proj2 (Z.ltb_ge _ _)) by lia.
  - intros events now s Hs.
    pose proof (run_pending hook events start Hen Hlp) as Hpending.
    pose proof (step_sends hook (frame now) (run hook events start).1) as Hstep.
    destruct (step hook (frame now) (run hook events start).1) as [b' out].
    simpl in Hs.
    destruct Hstep as [[-> _] | (now' & pos & [= <-] & -> & Hpos & _ & _)].
    { by apply not_elem_of_nil in Hs. }
    apply list_elem_of_singleton in Hs as ->.
    rewrite Hpos in Hpending.
    destruct (last (calls_only events)) as [[t p]|]; [|done].
    injection Hpending as ->. by exists t, p.
Qed.

Lemma cursor_broadcast_throttled_witness :
  (run erin_hook (burst (replicate 99 (1004, p1) ++ [(1015, p2)]) ++ [frame 1016])
     start).2
  = [(1016, cursor_packet p2)]
  ∧ (run erin_hook
       (burst [(1004, p1); (1015, p2)] ++ [frame 1016] ++ frames [1032; 1049; 1066])
       start).2
    = [(1016, cursor_packet p2)].
Proof.
  destruct (cursor_broadcast_throttled erin_hook) as (Hburst & _ & Hundred & _).
  - reflexivity.
  - by eexists.
  - split.
    + apply (Hundred (replicate 99 (1004, p1) ++ [(1015, p2)]) 1016 1015 p2).
      * reflexivity.
      * reflexivity.
      * lia.
    + apply (Hburst start [(1004, p1); (1015, p2)] 1016 1015 p2 [1032; 1049; 1066]).
      reflexivity.
Defined.

End PresenceFacts.

(** ** Undo/redo history *)

Module HistoryFacts.
Import JS History.
Local Open Scope Z_scope.

Lemma slice0_length {A : Type} (a : list A) (end_ : Z) :
  0 ≤ end_ ≤ Z.of_nat (length a) →
  Z.of_nat (length (slice0 a end_)) = end_.
Proof.
  intros H. unfold slice0. rewrite (proj2 (Z.ltb_ge _ _)) by lia.
  rewrite length_take. lia.
Qed.

Lemma tail_length {A : Type} (l : list A) :
  length (tail l) = (length l - 1)%nat.
Proof. destruct l; simpl; lia. Qed.

Lemma pushToHistory_in_bounds (newElements : Snapshot) (st : State) :
  in_bounds st → in_bounds (pushToHistory newElements st).
Proof.
  intros [Hlen Hidx]. unfold in_bounds, pushToHistory. simpl.
  assert (Hs : Z.of_nat (length (slice0 (history st) (historyIndex st + 1)))
               = historyIndex st + 1) by (apply slice0_length; lia).
  destruct (50 <? _) eqn:Hfull.
  - apply Z.ltb_lt in Hfull. rewrite tail_length.
    rewrite length_app in *. simpl in *. lia.
  - apply Z.ltb_ge in Hfull. rewrite length_app in *. simpl in *. lia.
Qed.

Lemma handleUndo_in_bounds (onSetElements : bool) (st : State) :
  in_bounds st → in_bounds (handleUndo onSetElements st).1.
Proof.
  intros [Hlen Hidx]. unfold handleUndo, canUndo.
  destruct (0 <? historyIndex st) eqn:Hcan; simpl; [|done].
  destruct onSetElements; simpl; [|done].
  apply Z.ltb_lt in Hcan. unfold in_bounds. simpl. lia.
Qed.

Lemma handleRedo_in_bounds (onSetElements : bool) (st : State) :
  in_bounds st → in_bounds (handleRedo onSetElements st).1.
Proof.
  intros [Hlen Hidx]. unfold handleRedo, canRedo.
  destruct (historyIndex st <? _) eqn:Hcan; simpl; [|done].
  destruct onSetElements; simpl; [|done].
  apply Z.ltb_lt in Hcan. unfold in_bounds. simpl. lia.
Qed.

Lemma initialize_in_bounds (isOpen : bool) (elements : Snapshot) (st : State) :
  in_bounds st → in_bounds (initialize isOpen elements st).
Proof.
  intros [Hlen Hidx]. unfold initialize.
  destruct isOpen; simpl; [|done].
  case_bool_decide as Hone; simpl; [|done].
  destruct (bool_decide _ && _); [|done].
  unfold in_bounds. simpl. rewrite Hone in Hidx. simpl in Hidx. lia.
Qed.

Lemma run_in_bounds (ops : list Op) (st : State) :
  in_bounds st → in_bounds (run ops st).
Proof.
  revert st. induction ops as [|op ops IH]; intros st Hst; [done|].
  apply IH. destruct op; simpl.
  - by apply pushToHistory_in_bounds.
  - by apply handleUndo_in_bounds.
  - by apply handleRedo_in_bounds.
  - by apply initialize_in_bounds.
Qed.

Lemma at_index_in_bounds {A : Type} (a : list A) (i : Z) :
  0 ≤ i ≤ Z.of_nat (length a) - 1 → is_Some (at_index a i).
Proof.
  intros H. unfold at_index. rewrite (proj2 (Z.ltb_ge _ _)) by lia.
  apply lookup_lt_is_Some. lia.
Qed.

(** C10: from the initial history, after any sequence of pushes, undos,
    redos and renders, the history holds at most 50 snapshots, the index is
    between 0 and the length minus one, and whenever undo or redo hands a
    snapshot to [onSetElements] it is an existing entry of the history. *)
Theorem history_bounded (ops : list Op) :
  let st := run ops initial in
  (length (history st) ≤ 50)%nat
  ∧ 0 ≤ historyIndex st ≤ Z.of_nat (length (history st)) - 1
  ∧ is_Some (at_index (history st) (historyIndex st))
  ∧ (∀ onSetElements given,
       (handleUndo onSetElements st).2 = Some given → is_Some given)
  ∧ (∀ onSetElements given,
       (handleRedo onSetElements st).2 = Some given → is_Some given).
Proof.
  intros st.
  assert (Hst : in_bounds st).
  { apply run_in_bounds. unfold in_bounds, initial. simpl. lia. }
  destruct Hst as [Hlen Hidx].
  split; [lia|]. split; [done|]. split; [by apply at_index_in_bounds|]. split.
  - intros onSetElements given. unfold handleUndo, canUndo.
    destruct (0 <? historyIndex st) eqn:Hcan; simpl; [|done].
    destruct onSetElements; simpl; [|done].
    apply Z.ltb_lt in Hcan. intros [= <-]. apply at_index_in_bounds. lia.
  - intros onSetElements given. unfold handleRedo, canRedo.
    destruct (historyIndex st <? _) eqn:Hcan; simpl; [|done].
    destruct onSetElements; simpl; [|done].
    apply Z.ltb_lt in Hcan. intros [= <-]. apply at_index_in_bounds. lia.
Qed.

(** Sixty pushes fill the history to its fifty entries, the index on the
    last; three undos and a push cut the redo tail. *)
Example sixty_pushes :
  length (history (run (replicate 60 (Push [])) initial)) = 50%nat
  ∧ historyIndex (run (replicate 60 (Push [])) initial) = 49.
Proof. split; reflexivity. Qed.

Example undo_then_push :
  let st := run (replicate 5 (Push []) ++ replicate 3 (Undo true) ++ [Push []]) initial in
  length (history st) = 4%nat ∧ historyIndex st = 3 ∧ canRedo st = false.
Proof. repeat split; reflexivity. Qed.

End HistoryFacts.

(** ** All three handlers of [RoomEvent.DataReceived] *)

Module HandlerFacts.
Import JS LiveKit.

(** C7: a packet whose sender identity equals the local identity is
    ignored by each of the three handlers, on every topic and with every
    payload: the whiteboard's element list and ref, the bridge's document,
    awareness and synced flag, and the cursor map are as they were, and
    nothing is published or logged. *)
Theorem own_packets_ignored {Y : Provider.Yjs} :
  (∀ (room : Whiteboard.Room) (payload : Whiteboard.Payload)
     (sender : option Participant) (topic : option string) (st : Whiteboard.State),
     identity_of sender = identity_of (Whiteboard.localParticipant room) →
     Whiteboard.handleData room payload sender topic st = (st, []))
  ∧ (∀ (live : ConnectionState) (payload : Provider.Uint8Array)
       (sender : option Participant) (topic : option string) (st : Provider.State),
       identity_of sender = identity_of (Provider.localParticipant st) →
       Provider.handleDataReceived live payload sender topic st = (st, [], Return tt))
  ∧ (∀ (hook : Presence.Hook) (now : Z) (payload : Presence.Payload)
       (sender : option Participant) (topic : option string)
       (cursors : gmap string Presence.ParticipantCursor),
       identity_of sender = identity_of (Presence.localParticipant hook) →
       Presence.handleData hook now payload sender topic cursors
       = Return (cursors, [])).
Proof.
  split; [|split].
  - intros room payload sender topic st Hown. unfold Whiteboard.handleData.
    destruct (negb _); [done|].
    by rewrite (proj2 (LiveKitFacts.same_identity_true _ _) Hown).
  - intros live payload sender topic st Hown.
    unfold Provider.handleDataReceived, mbind, Provider.M_bind, Provider.get. simpl.
    by rewrite (proj2 (LiveKitFacts.same_identity_true _ _) Hown).
  - intros hook now payload sender topic cursors Hown. unfold Presence.handleData.
    destruct (negb _); [done|].
    by rewrite (proj2 (LiveKitFacts.same_identity_true _ _) Hown).
Qed.

Lemma own_packets_ignored_witness :
  Whiteboard.handleData Whiteboard.bob_room
    (encode (Whiteboard.stroke_msg Whiteboard.s1)) (Some Whiteboard.bob)
    (Some Whiteboard.WHITEBOARD) (Whiteboard.board [Whiteboard.s2])
  = (Whiteboard.board [Whiteboard.s2], [])
  ∧ Provider.handleDataReceived connected [Byte.x02] (Some Provider.carol)
      (Some Provider.SYNC_RESPONSE_TOPIC) Provider.fresh_bridge
    = (Provider.fresh_bridge, [], Return tt)
  ∧ Presence.handleData Presence.erin_hook 5000 (encode Presence.p1)
      (Some Presence.erin) (Some Presence.PRESENCE_TOPIC) ∅
    = Return (∅, []).
Proof.
  destruct (@own_packets_ignored Provider.journal) as (Hwb & Hdoc & Hcur).
  split; [|split].
  - apply Hwb. reflexivity.
  - apply Hdoc. reflexivity.
  - apply Hcur. reflexivity.
Defined.

(** C9: a payload that does not parse is dropped by the whiteboard handler
    and by the presence handler: each returns normally, with the element
    list, respectively the cursor map, as it was, having published nothing;
    when the packet is on the handler's topic and from a remote sender, what
    it did was to catch the error and log it. *)
Theorem malformed_payload_dropped :
  (∀ (room : Whiteboard.Room) (sender : option Participant)
     (topic : option string) (st : Whiteboard.State),
     ∃ out,
       Whiteboard.handleData room Malformed sender topic st = (st, out)
       ∧ Forall (λ e, ¬ is_publish e) out
       ∧ (topic = Some Whiteboard.WHITEBOARD → Whiteboard.remote room sender →
          out = [console_error "Error decoding whiteboard data"]))
  ∧ (∀ (hook : Presence.Hook) (now : Z) (sender : option Participant)
       (topic : option string) (cursors : gmap string Presence.ParticipantCursor),
       ∃ out,
         Presence.handleData hook now Malformed sender topic cursors
         = Return (cursors, out)
         ∧ Forall (λ e, ¬ is_publish e) out
         ∧ (topic = Some Presence.PRESENCE_TOPIC →
            identity_of sender ≠ identity_of (Presence.localParticipant hook) →
            out = [console_error "[usePresence] Failed to parse cursor data:"])).
Proof.
  split.
  - intros room sender topic st. unfold Whiteboard.handleData.
    case_bool_decide as Htopic; simpl.
    + destruct (same_identity sender (Whiteboard.localParticipant room)) eqn:Hsame.
      * exists []. split; [done|]. split; [constructor|]. intros _ Hremote.
        apply LiveKitFacts.same_identity_true in Hsame. by destruct Hremote.
      * eexists. split; [done|]. split; [|done]. repeat constructor. by intros [].
    + exists []. split; [done|]. split; [constructor|]. intros ->. by destruct Htopic.
  - intros hook now sender topic cursors. unfold Presence.handleData.
    case_bool_decide as Htopic; simpl.
    + destruct (same_identity sender (Presence.localParticipant hook)) eqn:Hsame.
      * exists []. split; [done|]. split; [constructor|]. intros _ Hremote.
        apply LiveKitFacts.same_identity_true in Hsame. by destruct Hremote.
      * eexists. split; [done|]. split; [|done]. repeat constructor. by intros [].
    + exists []. split; [done|]. split; [constructor|]. intros ->. by destruct Htopic.
Qed.

End HandlerFacts.

(** ** The document bridge: updates, requests, reconnection *)

Module BridgeFacts.
Import JS LiveKit Provider.

Section Bridge.
Context {Y : Yjs}.

Ltac run_bridge :=
  unfold receive, handleDataReceived, handleLocalUpdate, requestSync,
    applyUpdate_this, applyAwareness, sendFullState, handleAwarenessUpdate,
    connect, disconnect, try_, perform, lift, get, set_doc, set_awareness,
    set_synced, skip, mbind, mret, M_bind, M_ret in *;
  repeat (simpl in *; case_match; simplify_eq); simpl in *.

Lemma remote_not_same (st : State) (sender : option Participant) :
  remote st sender → same_identity sender (localParticipant st) = false.
Proof. intros H. unfold same_identity. by apply bool_decide_eq_false. Qed.

(** A local edit travels once and is not sent back: the editing bridge, when
    ready, publishes the update reliably on the document topic and nothing
    else; the receiving bridge applies it to its document and publishes
    nothing, and neither does the 'update' event that the application
    raises (its origin is the bridge). *)
Theorem update_travels_without_echo (liveA liveB : ConnectionState)
    (update : Uint8Array) (a : Participant) (stA stB : State) :
  ready liveA stA = true →
  remote stB (Some a) →
  handleLocalUpdate liveA update elsewhere stA
  = (stA, [publishData update true DOC_TOPIC], Return tt)
  ∧ (receive liveB a (publishData update true DOC_TOPIC) stB).1
    = with_doc (Y_applyUpdate (doc stB) update).1 stB
  ∧ Forall (λ e, ¬ is_publish e) (receive liveB a (publishData update true DOC_TOPIC) stB).2
  ∧ (∀ st, handleLocalUpdate liveB update this st = (st, [], Return tt)).
Proof.
  intros Hready Hremote. apply remote_not_same in Hremote.
  split; [|split; [|split]].
  - unfold handleLocalUpdate, mbind, M_bind, get, perform. simpl. by rewrite Hready.
  - run_bridge; by destruct stB.
  - run_bridge; repeat constructor; by intros [].
  - intros st. reflexivity.
Qed.

(** What a packet can make the bridge publish: a full state, reliably on the
    sync-response topic, in answer to a sync-request; or an awareness update,
    unreliably on the awareness topic, after an awareness packet.  A packet
    on the document topic or on the sync-response topic publishes nothing,
    and a bridge that is not ready publishes nothing at all. *)
Theorem bridge_publishes_only_answers (live : ConnectionState) (p : Packet)
    (st : State) (payload' : Uint8Array) (reliable' : bool) (topic' : string) :
  publishData payload' reliable' topic'
    ∈ (handleDataReceived live (payload p) (participant p) (topic p) st).1.2 →
  ready live st = true
  ∧ ((topic p = Some SYNC_REQUEST_TOPIC ∧ topic' = SYNC_RESPONSE_TOPIC
      ∧ reliable' = true ∧ Y_encodeStateAsUpdate (doc st) = Return payload')
     ∨ (topic p = Some AWARENESS_TOPIC ∧ topic' = AWARENESS_TOPIC
        ∧ reliable' = false)).
Proof.
  intros Hin.
  assert (Htopic : ∀ name, is_topic (topic p) name = true → topic p = Some name).
  { intros name. unfold is_topic. apply bool_decide_eq_true. }
  run_bridge;
    repeat match goal with
    | H : _ ∈ [] |- _ => by apply not_elem_of_nil in H
    | H : _ ∈ [_] |- _ => apply list_elem_of_singleton in H; simplify_eq
    | H : _ ∈ _ ++ _ |- _ => apply elem_of_app in H as [H|H]
    | H : negb _ = false |- _ => apply negb_false_iff in H
    end.
  - split; [done|]. right. repeat split; auto.
  - split; [done|]. left. repeat split; auto.
Qed.

(** Packets never change who the bridge is connected as: [connected],
    [room] and [localParticipant] are the same after any sequence of
    deliveries, and each delivery returns normally. *)
Theorem packets_keep_the_connection (packets : list (ConnectionState * Packet))
    (st : State) :
  connected (deliver packets st).1 = connected st
  ∧ room (deliver packets st).1 = room st
  ∧ localParticipant (deliver packets st).1 = localParticipant st.
Proof.
  revert st. induction packets as [|[live p] packets IH]; intros st; [done|].
  simpl.
  assert (Hstep : let st1 := (handleDataReceived live (payload p) (participant p)
                                (topic p) st).1.1 in
                  connected st1 = connected st ∧ room st1 = room st
                  ∧ localParticipant st1 = localParticipant st).
  { run_bridge; done. }
  destruct (handleDataReceived _ _ _ _ _) as [[st1 out1] r1]. simpl in Hstep.
  specialize (IH st1). destruct (deliver packets st1) as [st2 out2]. simpl in *.
  destruct IH as (-> & -> & ->). done.
Qed.

(** Disconnecting and connecting again starts a new lifetime: the document
    and the awareness are kept, the flag is cleared, and the next
    sync-response from a remote sender that the library accepts is applied
    again, even if one had been applied before.  Connecting a connected
    bridge, or disconnecting a disconnected one, changes nothing. *)
Theorem reconnect_syncs_again (live : ConnectionState) (me : Participant)
    (st : State) (payload : Uint8Array) (sender : option Participant) (d : Doc) :
  connected st = true →
  identity_of sender ≠ Some (identity me) →
  Y_applyUpdate (doc st) payload = (d, None) →
  let st' := (connect me (disconnect st).1.1).1.1 in
  doc st' = doc st ∧ awareness st' = awareness st
  ∧ connected st' = true ∧ synced st' = false
  ∧ localParticipant st' = Some me
  ∧ handleDataReceived live payload sender (Some SYNC_RESPONSE_TOPIC) st'
    = (synced_with d st', [SYNCED_LINE], Return tt)
  ∧ (connect me st).1.1 = st
  ∧ (disconnect (disconnect st).1.1).1.1 = (disconnect st).1.1.
Proof.
  intros Hconn Hsender Happly st'. subst st'.
  unfold connect, disconnect. rewrite Hconn. simpl.
  repeat split.
  unfold handleDataReceived, try_, mbind, M_bind, get. simpl.
  unfold same_identity. rewrite bool_decide_eq_false_2 by done.
  unfold applyUpdate_this, mbind, M_bind, get, set_doc, set_synced, skip, perform,
    mret, M_ret. simpl. by rewrite Happly.
Qed.

(** The join handshake: a ready bridge's delayed request goes out reliably
    on the sync-request topic; a ready bridge that receives it from a remote
    sender answers with its encoded full state, reliably on the sync-response
    topic, and is itself unchanged; the joiner, not yet synced, applies that
    state and sets its flag. *)
Theorem join_handshake (liveA liveB : ConnectionState) (a b : Participant)
    (stA stB : State) (full : Uint8Array) (d : Doc) :
  ready liveA stA = true →
  ready liveB stB = true →
  localParticipant stA = Some a →
  localParticipant stB = Some b →
  identity a ≠ identity b →
  synced stB = false →
  Y_encodeStateAsUpdate (doc stA) = Return full →
  Y_applyUpdate (doc stB) full = (d, None) →
  requestSync liveB stB
  = (stB, [publishData SYNC_REQUEST_JSON true SYNC_REQUEST_TOPIC], Return tt)
  ∧ receive liveA b (publishData SYNC_REQUEST_JSON true SYNC_REQUEST_TOPIC) stA
    = (stA, [publishData full true SYNC_RESPONSE_TOPIC])
  ∧ receive liveB a (publishData full true SYNC_RESPONSE_TOPIC) stB
    = (synced_with d stB, [SYNCED_LINE]).
Proof.
  intros HreadyA HreadyB HA HB Hab Hun Hfull Hd.
  assert (HsameA : same_identity (Some b) (localParticipant stA) = false).
  { unfold same_identity. rewrite HA. apply bool_decide_eq_false. simpl. congruence. }
  assert (HsameB : same_identity (Some a) (localParticipant stB) = false).
  { unfold same_identity. rewrite HB. apply bool_decide_eq_false. simpl. congruence. }
  split; [|split].
  - unfold ready in HreadyB. apply andb_prop in HreadyB as [H1 H2].
    apply andb_prop in H1 as [H0 H1].
    unfold requestSync, mbind, M_bind, get, perform. simpl.
    by rewrite H0, H1, H2.
  - unfold receive, handleDataReceived, sendFullState, try_, mbind, M_bind, get,
      lift, perform. simpl. rewrite HsameA. simpl. rewrite HreadyA. simpl.
    by rewrite Hfull.
  - unfold receive, handleDataReceived, try_, mbind, M_bind, get. simpl.
    rewrite HsameB. simpl.
    unfold applyUpdate_this, mbind, M_bind, get, set_doc, set_synced, skip, perform,
      mret, M_ret. simpl. rewrite Hun. simpl. by rewrite Hd.
Qed.

End Bridge.

Lemma update_travels_without_echo_witness :
  handleLocalUpdate LiveKit.connected [Byte.x03] elsewhere dave_bridge
  = (dave_bridge, [publishData [Byte.x03] true DOC_TOPIC], Return tt)
  ∧ (receive LiveKit.connected dave (publishData [Byte.x03] true DOC_TOPIC)
       fresh_bridge).1
    = with_doc ([[Byte.x03]] : @Doc journal) fresh_bridge.
Proof.
  destruct (@update_travels_without_echo journal LiveKit.connected LiveKit.connected
              [Byte.x03] dave dave_bridge fresh_bridge) as (Hsend & Hrecv & _).
  - reflexivity.
  - unfold remote. simpl. discriminate.
  - split; [exact Hsend | exact Hrecv].
Defined.

Lemma bridge_publishes_only_answers_witness :
  ready LiveKit.connected dave_bridge = true
  ∧ ((topic (sync_request_packet carol) = Some SYNC_REQUEST_TOPIC
      ∧ SYNC_RESPONSE_TOPIC = SYNC_RESPONSE_TOPIC ∧ true = true
      ∧ @Y_encodeStateAsUpdate journal (doc dave_bridge) = Return [Byte.x01; Byte.x02])
     ∨ (topic (sync_request_packet carol) = Some AWARENESS_TOPIC
        ∧ SYNC_RESPONSE_TOPIC = AWARENESS_TOPIC ∧ true = false)).
Proof.
  apply (@bridge_publishes_only_answers journal LiveKit.connected
           (sync_request_packet carol) dave_bridge [Byte.x01; Byte.x02] true
           SYNC_RESPONSE_TOPIC).
  vm_compute. apply list_elem_of_here.
Defined.

Lemma reconnect_syncs_again_witness :
  synced (connect carol (disconnect synced_bridge).1.1).1.1 = false
  ∧ handleDataReceived LiveKit.connected [Byte.x02] (Some dave)
      (Some SYNC_RESPONSE_TOPIC) (connect carol (disconnect synced_bridge).1.1).1.1
    = (synced_with ([[Byte.x01]; [Byte.x02]] : @Doc journal)
         (connect carol (disconnect synced_bridge).1.1).1.1,
       [SYNCED_LINE], Return tt).
Proof.
  destruct (@reconnect_syncs_again journal LiveKit.connected carol synced_bridge
              [Byte.x02] (Some dave) [[Byte.x01]; [Byte.x02]])
    as (_ & _ & _ & Hflag & _ & Hnext & _).
  - reflexivity.
  - simpl. discriminate.
  - reflexivity.
  - split; [exact Hflag | exact Hnext].
Defined.

Lemma join_handshake_witness :
  receive LiveKit.connected carol
    (publishData SYNC_REQUEST_JSON true SYNC_REQUEST_TOPIC) dave_bridge
  = (dave_bridge, [publishData [Byte.x01; Byte.x02] true SYNC_RESPONSE_TOPIC])
  ∧ receive LiveKit.connected dave
      (publishData [Byte.x01; Byte.x02] true SYNC_RESPONSE_TOPIC) fresh_bridge
    = (synced_with ([[Byte.x01; Byte.x02]] : @Doc journal) fresh_bridge, [SYNCED_LINE]).
Proof.
  destruct (@join_handshake journal LiveKit.connected LiveKit.connected dave carol
              dave_bridge fresh_bridge [Byte.x01; Byte.x02] [[Byte.x01; Byte.x02]])
    as (_ & Hanswer & Hjoin).
  - reflexivity.
  - reflexivity.
  - reflexivity.
  - reflexivity.
  - simpl. discriminate.
  - reflexivity.
  - reflexivity.
  - reflexivity.
  - split; [exact Hanswer | exact Hjoin].
Defined.

Example sync_request_text :
  string_of_list_byte SYNC_REQUEST_JSON
  = "{" +:+ String (ascii_of_nat 34) "type" +:+ String (ascii_of_nat 34) ":"
    +:+ String (ascii_of_nat 34) "sync-request" +:+ String (ascii_of_nat 34) "}"
  ∧ length SYNC_REQUEST_JSON = 23%nat.
Proof. split; reflexivity. Qed.

End BridgeFacts.

(** ** Cursor presence: colours, lifetimes, rates *)

Module CursorFacts.
Import JS LiveKit Presence.
Local Open Scope Z_scope.

(** Every identity, the empty one included, gets one of the eight cursor
    colours: the index computed from the hash is always inside the table. *)
Theorem color_is_in_the_palette (identity : string) :
  getParticipantColor identity ∈ CURSOR_COLORS.
Proof.
  unfold getParticipantColor.
  set (hash := foldl _ 0 (charCodes identity)).
  assert (Hlt : (Z.to_nat (Z.abs hash mod Z.of_nat (length CURSOR_COLORS))
                 < length CURSOR_COLORS)%nat).
  { simpl. pose proof (Z.mod_pos_bound (Z.abs hash) 8). lia. }
  apply lookup_lt_is_Some in Hlt as [c Hc]. rewrite Hc. simpl.
  by apply list_elem_of_lookup_2 in Hc.
Qed.

(** A cursor lives for 3000 ms: a position received from a remote
    participant at clock reading [t] is entered under the sender's identity
    (replacing the sender's earlier entry, if any); a sweep at reading [t']
    keeps it if [t' - t <= 3000] and removes it otherwise, and treats every
    other participant's entry as it would have without the packet. *)
Theorem cursor_lives_3000ms (hook : Hook) (t t' : Z) (data : CursorPosition)
    (p : Participant) (cursors : CursorMap) :
  identity_of (Some p) ≠ identity_of (localParticipant hook) →
  ∃ cursors',
    handleData hook t (encode data) (Some p) (Some PRESENCE_TOPIC) cursors
    = Return (cursors', [])
    ∧ cursors' !! LiveKit.identity p
      = Some (cursor_of (LiveKit.identity p) data t)
    ∧ sweep t' cursors' !! LiveKit.identity p
      = (if 3000 <? t' - t then None
         else Some (cursor_of (LiveKit.identity p) data t))
    ∧ (∀ other, other ≠ LiveKit.identity p →
         cursors' !! other = cursors !! other
         ∧ sweep t' cursors' !! other = sweep t' cursors !! other).
Proof.
  intros Hremote. eexists. unfold handleData.
  rewrite bool_decide_eq_true_2 by done. simpl.
  unfold same_identity. rewrite bool_decide_eq_false_2 by done. simpl.
  split; [reflexivity|]. split; [apply lookup_insert_eq|]. split.
  - rewrite PresenceFacts.sweep_lookup, lookup_insert_eq. reflexivity.
  - intros other Hother. rewrite !PresenceFacts.sweep_lookup.
    by rewrite lookup_insert_ne.
Qed.

Lemma cursor_lives_3000ms_witness :
  ∃ cursors',
    handleData erin_hook 7000 (encode p1) (Some frank) (Some PRESENCE_TOPIC)
      (<["frank" := cursor_of "frank" p2 1000]> ∅)
    = Return (cursors', [])
    ∧ cursors' !! "frank" = Some (cursor_of "frank" p1 7000)
    ∧ sweep 10000 cursors' !! "frank" = Some (cursor_of "frank" p1 7000).
Proof.
  destruct (cursor_lives_3000ms erin_hook 7000 10000 p1 frank
              (<["frank" := cursor_of "frank" p2 1000]> ∅))
    as (cursors' & H1 & H2 & H3 & _).
  - simpl. discriminate.
  - exists cursors'. split; [exact H1|]. split; [exact H2 | exact H3].
Defined.

(** The sweep only removes.  Sweeping twice at one clock reading is
    sweeping once; a later sweep absorbs an earlier one; if no entry is
    stale the map is returned as it is; and a departure commutes with the
    sweep. *)
Theorem sweep_laws (now : Z) (m : CursorMap) :
  sweep now m ⊆ m
  ∧ sweep now (sweep now m) = sweep now m
  ∧ (∀ later, now ≤ later → sweep later (sweep now m) = sweep later m)
  ∧ ((∀ who c, m !! who = Some c → now - timestamp c ≤ 3000) → sweep now m = m)
  ∧ (∀ p, handleParticipantDisconnected p (sweep now m)
          = sweep now (handleParticipantDisconnected p m)).
Proof.
  split; [|split; [|split; [|split]]].
  - apply map_subseteq_spec. intros who c. rewrite PresenceFacts.sweep_lookup.
    destruct (m !! who) as [c'|]; [|done]. by destruct (stale now c').
  - apply map_eq. intros who. rewrite !PresenceFacts.sweep_lookup.
    destruct (m !! who) as [c|]; [|done].
    destruct (stale now c) eqn:Hc; [done|]. by rewrite Hc.
  - intros later Hlater. apply map_eq. intros who.
    rewrite !PresenceFacts.sweep_lookup.
    destruct (m !! who) as [c|]; [|done]. unfold stale, CURSOR_STALE_MS.
    destruct (3000 <? now - timestamp c) eqn:Hc; [|done].
    apply Z.ltb_lt in Hc. by rewrite (proj2 (Z.ltb_lt _ _)) by lia.
  - intros Hfresh. apply map_eq. intros who. rewrite PresenceFacts.sweep_lookup.
    destruct (m !! who) as [c|] eqn:Hwho; [|done]. unfold stale, CURSOR_STALE_MS.
    specialize (Hfresh who c Hwho). by rewrite (proj2 (Z.ltb_ge _ _)) by lia.
  - intros p. unfold handleParticipantDisconnected. apply map_eq. intros who.
    destruct (decide (who = LiveKit.identity p)) as [->|Hne].
    + by rewrite lookup_delete_eq, PresenceFacts.sweep_lookup, lookup_delete_eq.
    + rewrite lookup_delete_ne by done. rewrite !PresenceFacts.sweep_lookup.
      by rewrite lookup_delete_ne.
Qed.

Lemma sweep_laws_witness :
  sweep 5000 (<["erin" := cursor_of "erin" p1 2000]> ∅)
  = <["erin" := cursor_of "erin" p1 2000]> ∅.
Proof.
  destruct (sweep_laws 5000 (<["erin" := cursor_of "erin" p1 2000]> ∅))
    as (_ & _ & _ & Hfresh & _).
  apply Hfresh. intros who c Hc.
  destruct (decide (who = "erin")) as [->|Hne].
  - rewrite lookup_insert_eq in Hc. injection Hc as <-. simpl. lia.
  - rewrite lookup_insert_ne in Hc by done. by rewrite lookup_empty in Hc.
Defined.

(** A hook that is disabled, or has no local participant, never sends and
    never requests a frame, whatever is called and whenever frames run. *)
Theorem disabled_hook_is_silent (hook : Hook) (events : list Event) (b : Browser) :
  enabled hook = false ∨ localParticipant hook = None →
  animationFrameRef (refs b) = None →
  run hook events b = (b, []).
Proof.
  intros Hoff Hnone. induction events as [|e events IH]; [done|].
  simpl.
  assert (Hstep : step hook e b = (b, [])).
  { destruct e as [t position | now]; simpl.
    - assert (Hskip : broadcastCursor hook (nextHandle b) position (refs b) = refs b).
      { unfold broadcastCursor. destruct Hoff as [-> | ->]; [done|].
        rewrite bool_decide_eq_false_2; [by rewrite orb_true_r|]. by intros [? ?]. }
      rewrite Hskip, Hnone. by destruct b.
    - by rewrite Hnone. }
  by rewrite Hstep, IH.
Qed.

Lemma disabled_hook_is_silent_witness :
  run {| enabled := false; localParticipant := Some erin |}
    [call 1000 p1; frame 1016; call 1020 p2; frame 1050] start
  = (start, []).
Proof.
  apply (disabled_hook_is_silent {| enabled := false; localParticipant := Some erin |}).
  - by left.
  - reflexivity.
Defined.

Lemma spaced_span (last : Z) (times : list Z) :
  spaced last times →
  33 * Z.of_nat (length times) ≤ List.last times last - last.
Proof.
  revert last. induction times as [|t times IH]; intros last Hs; [simpl; lia|].
  destruct Hs as [Ht Hs]. specialize (IH t Hs).
  rewrite PresenceFacts.last_cons_default.
  unfold BROADCAST_INTERVAL_MS in Ht. simpl length. lia.
Qed.

(** The send rate is bounded: in any run, [n + 1] sends take at least
    [33 * n] ms from the first to the last, and there are no more sends than
    animation frames. *)
Theorem send_rate_is_bounded (hook : Hook) (events : list Event) (b : Browser) :
  (∀ first rest,
     send_times (run hook events b).2 = first :: rest →
     33 * Z.of_nat (length rest) ≤ List.last rest first - first)
  ∧ (length (run hook events b).2 ≤ length (frames_only events))%nat.
Proof.
  split.
  - intros first rest Htimes.
    destruct (PresenceFacts.run_spaced hook events b) as [Hs _].
    rewrite Htimes in Hs. destruct Hs as [_ Hs]. by apply spaced_span.
  - revert b. induction events as [|e events IH]; intros b; [done|].
    simpl. pose proof (PresenceFacts.step_sends hook e b) as Hstep.
    destruct (step hook e b) as [b1 out1]. specialize (IH b1).
    destruct (run hook events b1) as [b2 out2]. simpl in *.
    rewrite length_app.
    destruct Hstep as [[-> _] | (now & pos & -> & -> & _)]; simpl.
    + destruct e; simpl; lia.
    + lia.
Qed.

End CursorFacts.

(** ** Whiteboard sync: the join handshake, erasing, offline edits *)

Module BoardFacts.
Import JS LiveKit Whiteboard.

Lemma through_JSON_safe (l : list Stroke) :
  Forall JSON_safe l → through_JSON <$> l = l.
Proof.
  induction 1 as [|s l Hs _ IH]; [done|]. rewrite fmap_cons, IH. by rewrite Hs.
Qed.

(** A participant who joins asks for the board and gets it: the request of
    [requestSync], handled by a connected participant after the render that
    follows its last state update (so that the ref holds its list), is
    answered with the whole list if it is non-empty, and the joiner's list,
    whatever it was, becomes what JSON carries of that list: the list itself
    if JSON carries each stroke unchanged.  A participant with an empty list
    does not answer, and the joiner keeps what it has. *)
Theorem late_joiner_gets_the_board (host joiner : Room) (h j : Participant)
    (stH stJ : State) :
  state host = connected →
  state joiner = connected →
  localParticipant host = Some h →
  localParticipant joiner = Some j →
  identity h ≠ identity j →
  let answer := answers host j (requestSync false joiner) (commit stH) in
  (answer = (if bool_decide (strokes stH = []) then []
             else [publishData (stringify (sync_response_msg (Some (strokes stH))))
                     true WHITEBOARD]))
  ∧ strokes (receive_all joiner h answer stJ)
    = (if bool_decide (strokes stH = []) then strokes stJ
       else through_JSON <$> strokes stH)
  ∧ (Forall JSON_safe (strokes stH) → strokes stH ≠ [] →
     strokes (receive_all joiner h answer stJ) = strokes stH).
Proof.
  intros HH HJ HlH HlJ Hne answer.
  assert (Hanswer : answer
    = (if bool_decide (strokes stH = []) then []
       else [publishData (stringify (sync_response_msg (Some (strokes stH))))
               true WHITEBOARD])).
  { subst answer. unfold requestSync. rewrite HJ, HlJ. simpl.
    change (stringify sync_request_msg) with (encode sync_request_msg).
    rewrite WhiteboardFacts.handleData_remote.
    2: { unfold remote. rewrite HlH. simpl. congruence. }
    rewrite HH, HlH. simpl.
    by destruct (strokes stH) as [|s l] eqn:Hs. }
  assert (Hlist : strokes (receive_all joiner h answer stJ)
    = (if bool_decide (strokes stH = []) then strokes stJ
       else through_JSON <$> strokes stH)).
  { rewrite Hanswer. case_bool_decide; [done|]. simpl.
    unfold stringify. rewrite WhiteboardFacts.handleData_remote; [done|].
    unfold remote. rewrite HlJ. simpl. congruence. }
  split; [exact Hanswer|]. split; [exact Hlist|].
  intros Hsafe Hsome. rewrite Hlist, bool_decide_eq_false_2 by done.
  by apply through_JSON_safe.
Qed.

Lemma late_joiner_gets_the_board_witness :
  strokes (receive_all bob_room alice
             (answers alice_room bob (requestSync false bob_room)
                (commit (handleAddStroke alice_room s2 (board [s1])).1))
             (board [nameless]))
  = [s1; s2].
Proof.
  destruct (late_joiner_gets_the_board alice_room bob_room alice bob
              (handleAddStroke alice_room s2 (board [s1])).1 (board [nameless]))
    as (_ & _ & Hsafe).
  - reflexivity.
  - reflexivity.
  - reflexivity.
  - reflexivity.
  - simpl. discriminate.
  - apply Hsafe; [repeat constructor | discriminate].
Defined.

Lemma without_absent (i : string) (l : list Stroke) :
  i ∉ id <$> l → without i l = l.
Proof.
  intros Hi. unfold without. induction l as [|s l IH]; [done|].
  rewrite fmap_cons, not_elem_of_cons in Hi. destruct Hi as [Hs Hl].
  rewrite filter_cons_True by congruence. by rewrite IH.
Qed.

Lemma without_gone (i : string) (l : list Stroke) :
  i ∉ id <$> without i l.
Proof.
  unfold without. intros Hin. apply list_elem_of_fmap in Hin as (s & -> & Hs).
  apply list_elem_of_filter in Hs as [Hne _]. done.
Qed.

(** Erasing: after [handleRemoveStroke] no stroke with that id is left
    (every copy goes), erasing an id that is not on the board changes
    nothing, erasing twice is erasing once, and erasing a stroke just drawn,
    whose id was new, gives back the list from before. *)
Theorem erase_undoes_draw (room : Room) (s : Stroke) (i : string) (st : State) :
  (i ∉ ids (handleRemoveStroke room i st).1)
  ∧ (i ∉ ids st → strokes (handleRemoveStroke room i st).1 = strokes st)
  ∧ strokes (run_local room [Remove i; Remove i] st).1
    = strokes (run_local room [Remove i] st).1
  ∧ (id s ∉ ids st →
     strokes (run_local room [Add s; Remove (id s)] st).1 = strokes st).
Proof.
  unfold ids. split; [|split; [|split]].
  - unfold handleRemoveStroke. destruct (negb _); simpl; apply without_gone.
  - intros Hi. unfold handleRemoveStroke. destruct (negb _); simpl;
      by apply without_absent.
  - cbn [run_local]. rewrite !WhiteboardFacts.local_handler_spec. simpl.
    apply without_absent, without_gone.
  - intros Hs. cbn [run_local]. rewrite !WhiteboardFacts.local_handler_spec. simpl.
    unfold without. rewrite filter_app, filter_cons_False, filter_nil, app_nil_r.
    + by apply without_absent.
    + by intros H.
Qed.

Lemma erase_undoes_draw_witness :
  strokes (run_local alice_room [Add s2; Remove "b2"] (board [s1])).1 = [s1].
Proof.
  destruct (erase_undoes_draw alice_room s2 "b2" (board [s1])) as (_ & _ & _ & H).
  apply H. unfold ids. simpl. intros [=]%list_elem_of_singleton.
Defined.

(** While the room is not connected, edits are applied to the local list
    and nothing is published: other participants never hear of them, and
    nothing is queued for later. *)
Theorem offline_edits_stay_local (room : Room) (ops : list Op) (st : State) :
  state room ≠ connected →
  (run_local room ops st).2 = []
  ∧ strokes (run_local room ops st).1 = foldl (λ l op, edited op l) (strokes st) ops.
Proof.
  intros Hoff.
  assert (Hc : is_connected (state room) = false) by (by destruct (state room)).
  revert st. induction ops as [|op ops IH]; intros st; [done|].
  simpl. rewrite WhiteboardFacts.local_handler_spec, Hc.
  specialize (IH (commit (setStrokes (edited op) st))).
  destruct (run_local room ops _) as [st2 out2]. simpl in *.
  destruct IH as [-> ->]. done.
Qed.

Lemma offline_edits_stay_local_witness :
  (run_local {| state := reconnecting; localParticipant := Some alice |}
     [Add s1; Add s2; Remove "a1"] (board [])).2 = [].
Proof.
  apply (offline_edits_stay_local
           {| state := reconnecting; localParticipant := Some alice |}
           [Add s1; Add s2; Remove "a1"] (board [])).
  discriminate.
Defined.

(** What [handleData] leaves alone: a packet on another topic, or on none,
    changes nothing and causes nothing; no packet changes the ref; and the
    only thing the handler ever publishes is the answer to a sync-request,
    the whole list of the ref, reliably on the whiteboard topic. *)
Theorem whiteboard_handler_frame (room : Room) (payload : Payload)
    (sender : option Participant) (topic : option string) (st : State) :
  (topic ≠ Some WHITEBOARD → handleData room payload sender topic st = (st, []))
  ∧ strokesRef (handleData room payload sender topic st).1 = strokesRef st
  ∧ (∀ e, e ∈ (handleData room payload sender topic st).2 → is_publish e →
       payload = encode sync_request_msg
       ∧ e = publishData (stringify (sync_response_msg (Some (strokesRef st))))
               true WHITEBOARD).
Proof.
  unfold handleData. split; [|split].
  - intros Htopic. by rewrite bool_decide_eq_false_2.
  - destruct (negb _); [done|]. destruct (same_identity _ _); [done|].
    destruct payload as [|[| | |i|[l|]|]]; simpl; try done.
    + destruct (_ && _); [|done]. by destruct (localParticipant room).
    + by destruct (truthy i).
  - intros e. destruct (negb _); [by intros ?%not_elem_of_nil|].
    destruct (same_identity _ _); [by intros ?%not_elem_of_nil|].
    destruct payload as [|[| | |i|[l|]|]]; simpl;
      try (by intros ?%not_elem_of_nil).
    + intros ->%list_elem_of_singleton. by intros [].
    + destruct (_ && _); [|by intros ?%not_elem_of_nil].
      destruct (localParticipant room); simpl.
      * by intros ->%list_elem_of_singleton.
      * intros ->%list_elem_of_singleton. by intros [].
    + destruct (truthy i); by intros ?%not_elem_of_nil.
Qed.

Lemma whiteboard_handler_frame_witness :
  handleData bob_room (encode (stroke_msg s1)) (Some alice) (Some "cursor-presence")
    (board [s2])
  = (board [s2], []).
Proof.
  apply (whiteboard_handler_frame bob_room (encode (stroke_msg s1)) (Some alice)
           (Some "cursor-presence") (board [s2])).
  discriminate.
Defined.

End BoardFacts.

(** ** Shared files *)

Module FilesFacts.
Import JS Files.

Lemma file_event_metadata (e : FileEvent) (prev : list SharedFile) :
  metadata <$> file_event e prev
  = match e with
    | Uploaded file => metadata file :: (metadata <$> prev)
    | _ => metadata <$> prev
    end.
Proof.
  destruct e as [file | i p | i blob | i]; simpl; [done|..];
    unfold handleFileProgress, handleFileComplete, handleFileError;
    rewrite <- list_fmap_compose; apply list_fmap_ext; intros k f _; simpl;
    by case_bool_decide.
Qed.

(** Progress, completion and failure never add, drop or reorder files, and
    never touch a file's id, name, size, type, sender or time: after any
    sequence of events the list is, in these respects, the uploaded files,
    newest first, followed by the files that were there.  An event about an
    id that no file has changes nothing at all. *)
Theorem files_keep_their_place (es : list FileEvent) (prev : list SharedFile) :
  metadata <$> file_events es prev
  = (metadata <$> uploads es) ++ (metadata <$> prev)
  ∧ (∀ i p blob, i ∉ id <$> prev →
       handleFileProgress i p prev = prev
       ∧ handleFileComplete i blob prev = prev
       ∧ handleFileError i prev = prev).
Proof.
  split.
  - unfold file_events, uploads.
    revert prev. induction es as [|e es IH] using rev_ind; intros prev.
    { done. }
    rewrite !foldl_app. simpl. rewrite file_event_metadata, IH.
    destruct e; simpl; done.
  - intros i p blob Hi.
    assert (Hno : ∀ f, f ∈ prev → id f ≠ i).
    { intros f Hf Heq. apply Hi. apply list_elem_of_fmap. by exists f. }
    unfold handleFileProgress, handleFileComplete, handleFileError.
    repeat split; rewrite <- (list_fmap_id prev) at 2;
      apply list_fmap_ext; intros k f Hk; simpl;
      apply list_elem_of_lookup_2 in Hk; specialize (Hno f Hk);
      by rewrite bool_decide_eq_false_2.
Qed.

Lemma files_keep_their_place_witness :
  handleFileComplete "f9" None [report] = [report].
Proof.
  destruct (files_keep_their_place [] [report]) as [_ H].
  apply (H "f9" 50%float None).
  simpl. intros [=]%list_elem_of_singleton.
Defined.

(** Completion wins over what came before: once a file's transfer has
    completed, every file with that id is complete with progress 100 and
    holds the received data, whatever progress or failure had been recorded
    for it; a later failure marks it failed but leaves the data. *)
Theorem completed_file_is_complete (i : string) (blob : option (list Byte.byte))
    (prev : list SharedFile) (f : SharedFile) :
  f ∈ handleFileComplete i blob prev →
  id f = i →
  status f = complete ∧ progress f = Some 100%float ∧ data f = blob
  ∧ (∀ g, g ∈ handleFileError i (handleFileComplete i blob prev) → id g = i →
       status g = error ∧ data g = blob).
Proof.
  intros Hf Hid. unfold handleFileComplete in Hf.
  apply list_elem_of_fmap in Hf as (f0 & -> & Hf0).
  split; [|split; [|split]].
  1-3: by (case_bool_decide; [done | simpl in Hid; done]).
  intros g Hg Hgi. unfold handleFileError, handleFileComplete in Hg.
  apply list_elem_of_fmap in Hg as (g1 & -> & Hg1).
  apply list_elem_of_fmap in Hg1 as (g0 & -> & Hg0).
  simpl in *. repeat case_bool_decide; simpl in *; done.
Qed.

Lemma completed_file_is_complete_witness :
  status {| id := "f1"; name := "report.pdf"; size := 2048%float;
            mimeType := "application/pdf"; sender := "alice"; timestamp := 1000;
            data := Some [Byte.x01]; progress := Some 100%float;
            status := complete |} = complete.
Proof.
  apply (completed_file_is_complete "f1" (Some [Byte.x01])
           (handleFileError "f1" [report])
           {| id := "f1"; name := "report.pdf"; size := 2048%float;
              mimeType := "application/pdf"; sender := "alice"; timestamp := 1000;
              data := Some [Byte.x01]; progress := Some 100%float;
              status := complete |}).
  - apply list_elem_of_singleton. reflexivity.
  - reflexivity.
Defined.

End FilesFacts.

(** ** Undo/redo: round trips; the laser trail *)

Module UndoFacts.
Import JS History.
Local Open Scope Z_scope.

Lemma at_index_nat {A : Type} (a : list A) (i : Z) :
  0 ≤ i → at_index a i = a !! Z.to_nat i.
Proof. intros H. unfold at_index. by rewrite (proj2 (Z.ltb_ge _ _)) by lia. Qed.

(** The history after a push: the entries up to the current one followed
    by the new snapshot, the oldest entry dropped when that makes 51. *)
Lemma pushToHistory_history (s : Snapshot) (st : State) :
  in_bounds st →
  history (pushToHistory s st)
  = (if historyIndex st <? 49
     then take (Z.to_nat (historyIndex st + 1)) (history st) ++ [s]
     else tail (history st) ++ [s])
  ∧ historyIndex (pushToHistory s st)
    = Z.of_nat (length (history (pushToHistory s st))) - 1.
Proof.
  intros [Hlen Hidx]. unfold pushToHistory. simpl.
  assert (Hs : slice0 (history st) (historyIndex st + 1)
               = take (Z.to_nat (historyIndex st + 1)) (history st)).
  { unfold slice0. rewrite (proj2 (Z.ltb_ge _ _)) by lia.
    by rewrite Z.min_l by lia. }
  rewrite Hs.
  assert (Htake : length (take (Z.to_nat (historyIndex st + 1)) (history st))
                  = Z.to_nat (historyIndex st + 1)).
  { rewrite length_take. lia. }
  destruct (historyIndex st <? 49) eqn:Hfull.
  - apply Z.ltb_lt in Hfull.
    rewrite (proj2 (Z.ltb_ge _ _)) by (rewrite length_app, Htake; simpl; lia).
    split; [done|]. rewrite length_app, Htake. simpl. lia.
  - apply Z.ltb_ge in Hfull.
    assert (Hall : take (Z.to_nat (historyIndex st + 1)) (history st) = history st).
    { apply take_ge. lia. }
    rewrite Hall in *.
    rewrite (proj2 (Z.ltb_lt _ _)) by (rewrite length_app; simpl; lia).
    destruct (history st) as [|h0 h] eqn:Hh; [simpl in Hlen; lia|].
    simpl. split; [done|]. rewrite length_app. simpl in *. lia.
Qed.

Lemma pushToHistory_canUndo (s : Snapshot) (st : State) :
  in_bounds st → canUndo (pushToHistory s st) = true.
Proof.
  intros [Hlen Hidx]. unfold canUndo. apply Z.ltb_lt.
  unfold pushToHistory. simpl. lia.
Qed.

(** After a push the new snapshot is the current entry, there is nothing to
    redo and something to undo; the redo tail is cut, and at fifty entries
    the oldest one is dropped. *)
Theorem push_makes_current (s : Snapshot) (st : State) :
  in_bounds st →
  at_index (history (pushToHistory s st)) (historyIndex (pushToHistory s st)) = Some s
  ∧ canRedo (pushToHistory s st) = false
  ∧ canUndo (pushToHistory s st) = true
  ∧ history (pushToHistory s st)
    = (if historyIndex st <? 49
       then take (Z.to_nat (historyIndex st + 1)) (history st) ++ [s]
       else tail (history st) ++ [s]).
Proof.
  intros Hb.
  destruct (HistoryFacts.pushToHistory_in_bounds s st Hb) as [Hlen Hidx].
  destruct (pushToHistory_history s st Hb) as [Hh Hi].
  split; [|split; [|split]]; [| | |done].
  - rewrite at_index_nat by lia. rewrite Hi, Hh.
    destruct (historyIndex st <? 49).
    + rewrite length_app. simpl. rewrite lookup_app_r by lia.
      by replace (_ - _)%nat with 0%nat by lia.
    + rewrite length_app. simpl. rewrite lookup_app_r by lia.
      by replace (_ - _)%nat with 0%nat by lia.
  - unfold canRedo. rewrite Hi. apply Z.ltb_irrefl.
  - by apply pushToHistory_canUndo.
Qed.

Lemma push_makes_current_witness :
  at_index (history (pushToHistory [dot 3%float] initial))
    (historyIndex (pushToHistory [dot 3%float] initial))
  = Some [dot 3%float].
Proof.
  apply (push_makes_current [dot 3%float] initial).
  unfold in_bounds, initial. simpl. lia.
Defined.

(** Undo and redo are inverse to each other, and undo takes a push back:
    - right after a push, undo hands [onSetElements] the snapshot that was
      current before the push;
    - when there is something to undo, undo followed by redo restores the
      history and the index, and redo hands over the snapshot that was
      current;
    - when there is something to redo, redo followed by undo does the same. *)
Theorem undo_redo_round_trips (s : Snapshot) (st : State) :
  in_bounds st →
  (handleUndo true (pushToHistory s st)).2
  = Some (at_index (history st) (historyIndex st))
  ∧ (canUndo st = true →
     handleRedo true (handleUndo true st).1
     = (st, Some (at_index (history st) (historyIndex st))))
  ∧ (canRedo st = true →
     handleUndo true (handleRedo true st).1
     = (st, Some (at_index (history st) (historyIndex st)))).
Proof.
  intros Hb. split; [|split].
  - pose proof (pushToHistory_canUndo s st Hb) as Hcan.
    destruct (pushToHistory_history s st Hb) as [Hh Hi].
    unfold handleUndo. rewrite Hcan. cbn [negb orb snd]. f_equal.
    destruct Hb as [Hlen Hidx].
    change (historyIndex (pushToHistory s st)) with (Z.min (historyIndex st + 1) 49).
    rewrite !at_index_nat by lia.
    rewrite Hh. destruct (historyIndex st <? 49) eqn:Hfull.
    + apply Z.ltb_lt in Hfull. rewrite Z.min_l by lia.
      replace (Z.to_nat (historyIndex st + 1 - 1)) with (Z.to_nat (historyIndex st))
        by lia.
      rewrite lookup_app_l by (rewrite length_take; lia).
      apply lookup_take_lt. lia.
    + apply Z.ltb_ge in Hfull. rewrite Z.min_r by lia.
      destruct (history st) as [|h0 h]; [simpl in Hlen; lia|]. simpl in *.
      rewrite lookup_app_l by lia.
      replace (Z.to_nat (historyIndex st)) with (S (Z.to_nat (49 - 1))) by lia.
      done.
  - intros Hcan. unfold handleUndo. rewrite Hcan. simpl.
    unfold canUndo in Hcan. apply Z.ltb_lt in Hcan. destruct Hb as [Hlen Hidx].
    unfold handleRedo, canRedo. simpl.
    rewrite (proj2 (Z.ltb_lt _ _)) by lia. simpl.
    replace (historyIndex st - 1 + 1) with (historyIndex st) by lia.
    by destruct st.
  - intros Hcan. unfold handleRedo. rewrite Hcan. simpl.
    unfold canRedo in Hcan. apply Z.ltb_lt in Hcan. destruct Hb as [Hlen Hidx].
    unfold handleUndo, canUndo. simpl.
    rewrite (proj2 (Z.ltb_lt _ _)) by lia. simpl.
    replace (historyIndex st + 1 - 1) with (historyIndex st) by lia.
    by destruct st.
Qed.

Lemma undo_redo_round_trips_witness :
  (handleUndo true (pushToHistory [dot 3%float] (pushToHistory [dot 2%float] initial))).2
  = Some (Some [dot 2%float]).
Proof.
  apply (undo_redo_round_trips [dot 3%float] (pushToHistory [dot 2%float] initial)).
  unfold in_bounds. simpl. lia.
Defined.



End UndoFacts.

(** ** The past/present/future history *)

Module HistoryHookFacts.
Import JS History HistoryHook.
Local Open Scope Z_scope.

Lemma last_removelast {A : Type} (l : list A) (x : A) :
  last l = Some x → removelast l ++ [x] = l.
Proof.
  intros H. apply last_Some in H as [l' ->].
  by rewrite removelast_last.
Qed.

(** Undo and redo are inverse to each other: with something to undo, undo
    then redo gives back the same past, present and future; with something
    to redo, so does redo then undo.  And undo takes a push back: with room
    for at least one entry, the present after push and undo is the present
    from before the push, the pushed snapshot is what redo would bring back,
    and, unless the push had to drop the oldest entry, the past is the same
    too. *)
Theorem hook_undo_redo_round_trips (maxSize : Z) (s : Snapshot) (st : HistoryState) :
  (past st ≠ [] → redo (undo st) = st)
  ∧ (future st ≠ [] → undo (redo st) = st)
  ∧ (1 ≤ maxSize →
     present (undo (push maxSize s st)) = present st
     ∧ future (undo (push maxSize s st)) = [s]
     ∧ (Z.of_nat (length (past st)) < maxSize →
        past (undo (push maxSize s st)) = past st)).
Proof.
  split; [|split].
  - intros Hp. unfold undo.
    destruct (last (past st)) as [previous|] eqn:Hlast.
    + unfold redo. simpl. rewrite (last_removelast _ _ Hlast). by destruct st.
    + apply last_None in Hlast. done.
  - intros Hf. unfold redo. destruct (future st) as [|next newFuture] eqn:Hfut; [done|].
    unfold undo. simpl. rewrite last_snoc, removelast_last.
    destruct st. simpl in *. by rewrite Hfut.
  - intros Hmax. unfold push.
    set (newPast := if _ <? _ then _ else _).
    assert (Hlast : last newPast = Some (present st)
                    ∧ (Z.of_nat (length (past st)) < maxSize →
                       removelast newPast = past st)).
    { subst newPast. destruct (maxSize <? _) eqn:Hfull.
      - apply Z.ltb_lt in Hfull. rewrite length_app in Hfull. simpl in Hfull.
        split; [|lia].
        destruct (past st) as [|p0 ps]; [simpl in Hfull; lia|].
        simpl. by rewrite last_snoc.
      - split; [by rewrite last_snoc | intros _; by rewrite removelast_last]. }
    destruct Hlast as [Hlast Hinit]. unfold undo. simpl. rewrite Hlast. simpl.
    done.
Qed.

Lemma hook_undo_redo_round_trips_witness :
  redo (undo (push 50 [dot 3%float] (start [dot 2%float])))
  = push 50 [dot 3%float] (start [dot 2%float]).
Proof.
  destruct (hook_undo_redo_round_trips 50 [] (push 50 [dot 3%float] (start [dot 2%float])))
    as [H _].
  apply H. discriminate.
Defined.

Lemma apply_bound (maxSize : Z) (op : Op) (st : HistoryState) (c : nat) :
  0 ≤ maxSize →
  Z.of_nat (length (past st) + length (future st)) ≤ maxSize + Z.of_nat c →
  Z.of_nat (length (past (apply maxSize op st)) + length (future (apply maxSize op st)))
  ≤ maxSize + Z.of_nat (match op with Clear => S c | _ => c end).
Proof.
  intros Hmax Hb. destruct op as [s | | | s |]; simpl.
  - destruct (maxSize <? _) eqn:Hfull.
    + rewrite HistoryFacts.tail_length, length_app. simpl. lia.
    + apply Z.ltb_ge in Hfull. lia.
  - unfold undo. destruct (last (past st)) as [previous|] eqn:Hlast; [|done].
    apply last_Some in Hlast as [l' Hl']. simpl. rewrite Hl' in *.
    rewrite removelast_last. rewrite length_app in Hb. simpl in *. lia.
  - unfold redo. destruct (future st) as [|next newFuture] eqn:Hf;
      [rewrite Hf; simpl in *; lia|].
    simpl in *. rewrite length_app. simpl. lia.
  - lia.
  - rewrite length_app. simpl. lia.
Qed.

(** The size of the history: pushes, undos, redos and [setElements] keep
    past and future together within [maxSize] entries, but [clear] appends
    to the past without looking at [maxSize], so each clear can take the
    history one entry beyond it. *)
Theorem hook_history_bound (maxSize : Z) (ops : list Op) (initialElements : Snapshot) :
  0 ≤ maxSize →
  Z.of_nat (length (past (run maxSize ops (start initialElements)))
            + length (future (run maxSize ops (start initialElements))))
  ≤ maxSize + Z.of_nat (clears ops).
Proof.
  intros Hmax.
  assert (Hgen : ∀ st c,
    Z.of_nat (length (past st) + length (future st)) ≤ maxSize + Z.of_nat c →
    Z.of_nat (length (past (run maxSize ops st)) + length (future (run maxSize ops st)))
    ≤ maxSize + Z.of_nat (c + clears ops)).
  { induction ops as [|op ops IH]; intros st c Hb.
    - simpl. by rewrite Nat.add_0_r.
    - simpl. pose proof (apply_bound maxSize op st c Hmax Hb) as Hstep.
      specialize (IH _ _ Hstep). etrans; [exact IH|].
      destruct op; simpl; lia. }
  apply (Hgen (start initialElements) 0%nat). simpl. lia.
Qed.

Lemma hook_history_bound_witness :
  Z.of_nat (length (past (run 50 (replicate 60 (Push []) ++ [Clear]) (start [])))
            + length (future (run 50 (replicate 60 (Push []) ++ [Clear]) (start []))))
  ≤ 50 + Z.of_nat (clears (replicate 60 (Push []) ++ [Clear])).
Proof.
  apply (hook_history_bound 50 (replicate 60 (Push []) ++ [Clear]) []). lia.
Defined.

(** Fifty pushes fill the past; a clear then makes it fifty-one. *)
Example clear_goes_past_the_cap :
  length (past (run 50 (replicate 60 (Push [])) (start []))) = 50%nat
  ∧ length (past (run 50 (replicate 60 (Push []) ++ [Clear]) (start []))) = 51%nat.
Proof. split; reflexivity. Qed.

End HistoryHookFacts.

(** ** Whiteboard utilities *)

Module UtilsFacts.
Import JS History Utils.

Section Geometry.
Context {M : Math}.

(** The loop of [simplifyPath] either never updates, and returns index 0
    with distance 0, or returns the index of an interior point. *)
Lemma farthest_index (points : list Point) (start end_ : Point) :
  ((farthest points start end_).2 = 0%nat
   ∧ (farthest points start end_).1 = 0%float)
  ∨ (1 ≤ (farthest points start end_).2 ≤ length points - 2)%nat.
Proof.
  unfold farthest.
  assert (Hgen : ∀ (l : list nat) (acc : number * nat),
    Forall (λ i, 1 ≤ i ≤ length points - 2)%nat l →
    (acc.2 = 0%nat ∧ acc.1 = 0%float) ∨ (1 ≤ acc.2 ≤ length points - 2)%nat →
    let r := foldl
      (λ '(maxDist, maxIndex) i,
         match points !! i with
         | Some p =>
             let dist := pointToSegmentDistance p start end_ in
             if (maxDist <? dist)%float then (dist, i) else (maxDist, maxIndex)
         | None => (maxDist, maxIndex)
         end) acc l in
    (r.2 = 0%nat ∧ r.1 = 0%float) ∨ (1 ≤ r.2 ≤ length points - 2)%nat).
  { induction l as [|i l IH]; intros [d k] Hl Hacc; [done|].
    apply Forall_cons in Hl as [Hi Hl]. simpl. apply IH; [done|].
    destruct (points !! i); [|done]. by destruct (_ <? _)%float; [right|]. }
  apply Hgen; [|by left].
  apply Forall_forall. intros i Hi. apply elem_of_seq in Hi. lia.
Qed.

Lemma simplifyPath_spec (tolerance : number) :
  (tolerance <? 0)%float = false →
  ∀ (depth : nat) (points : list Point),
    length points < depth →
    ∃ r, simplifyPath depth points tolerance = Some r
         ∧ head r = head points ∧ last r = last points
         ∧ r `sublist_of` points
         ∧ (2 ≤ length points → 2 ≤ length r)%nat.
Proof.
  intros Htol. induction depth as [|depth IH]; intros points Hlen; [lia|].
  simpl. destruct (length points <=? 2)%nat eqn:Hsmall.
  { exists points. by repeat split. }
  apply Nat.leb_gt in Hsmall.
  destruct (head points) as [start|] eqn:Hhead.
  2: { destruct points; [simpl in Hsmall; lia | done]. }
  destruct (last points) as [end_|] eqn:Hlast.
  2: { apply last_None in Hlast. subst. simpl in Hsmall. lia. }
  pose proof (farthest_index points start end_) as Hk.
  destruct (farthest points start end_) as [maxDist k]. simpl in Hk.
  destruct (tolerance <? maxDist)%float eqn:Hfar.
  - destruct Hk as [[-> ->] | Hk]; [congruence|].
    destruct (IH (take (k + 1) points)) as (left & -> & Hhl & Hll & Hsl & Hnl).
    { rewrite length_take. lia. }
    destruct (IH (drop k points)) as (right & -> & Hhr & Hlr & Hsr & Hnr).
    { rewrite length_drop. lia. }
    simpl. eexists. split; [done|].
    rewrite length_take in Hnl. rewrite length_drop in Hnr.
    specialize (Hnl ltac:(lia)). specialize (Hnr ltac:(lia)).
    assert (Hk' : is_Some (points !! k)) by (apply lookup_lt_is_Some; lia).
    destruct Hk' as [pk Hpk].
    assert (Hlast_left : last left = Some pk).
    { rewrite Hll, last_lookup, length_take.
      replace (Init.Nat.pred ((k + 1) `min` length points)) with k by lia.
      rewrite lookup_take_lt by lia. done. }
    apply last_Some in Hlast_left as [left' ->].
    rewrite removelast_last. rewrite length_app in Hnl. simpl in Hnl.
    split; [|split; [|split]].
    + rewrite head_app. destruct left' as [|l0 left']; [simpl in Hnl; lia|].
      simpl in *. rewrite Hhl, !head_lookup, lookup_take_lt by lia.
      by rewrite <- head_lookup.
    + rewrite last_app, Hlr.
      assert (Hld : last (drop k points) = Some end_).
      { rewrite last_lookup, length_drop, lookup_drop.
        replace (k + Init.Nat.pred (length points - k)) with
          (Init.Nat.pred (length points)) by lia.
        by rewrite <- last_lookup. }
      by rewrite Hld.
    + assert (Hsub : left' ++ right `sublist_of` take k points ++ drop k points).
      { apply sublist_app; [|done]. apply (sublist_app_inv_r [pk]).
        replace (k + 1) with (S k) in Hsl by lia.
        by rewrite (take_S_r _ _ _ Hpk) in Hsl. }
      by rewrite take_drop in Hsub.
    + intros _. rewrite length_app. lia.
  - exists [start; end_]. split; [done|]. split; [done|]. split; [done|].
    split; [|simpl; lia].
    destruct points as [|p0 rest]; [done|]. simpl in Hhead. injection Hhead as ->.
    apply sublist_skip.
    assert (Hrest : last rest = Some end_).
    { destruct rest as [|p1 rest]; [simpl in Hsmall; lia|]. done. }
    apply last_Some in Hrest as [rest' ->].
    apply sublist_inserts_l. done.
Qed.

(** [simplifyPath] with a tolerance that is not negative (the default
    0.001, or [NaN]) returns, at a depth of recursion of at most the number
    of points: the path it returns starts and ends where the given path
    does, consists of points of the given path in their order, and has at
    least two points if the given path has. *)
Theorem simplifyPath_keeps_the_ends (tolerance : number) (depth : nat)
    (points : list Point) :
  (tolerance <? 0)%float = false →
  length points < depth →
  ∃ r, simplifyPath depth points tolerance = Some r
       ∧ head r = head points ∧ last r = last points
       ∧ r `sublist_of` points
       ∧ (length r ≤ length points)%nat
       ∧ (2 ≤ length points → 2 ≤ length r)%nat.
Proof.
  intros Htol Hdepth.
  destruct (simplifyPath_spec tolerance Htol depth points Hdepth)
    as (r & Hr & Hh & Hl & Hs & Hn).
  exists r. repeat split; try done. by apply sublist_length.
Qed.

(** With a negative tolerance the recursion need not end: on a path of
    three or more points none of which is at a positive distance from the
    segment between its ends, [simplifyPath] calls itself on the whole path
    again, and no depth of the call stack is enough. *)
Theorem simplifyPath_negative_tolerance (tolerance : number)
    (points : list Point) (start end_ : Point) :
  (tolerance <? 0)%float = true →
  2 < length points →
  head points = Some start →
  last points = Some end_ →
  (∀ i p, points !! i = Some p →
          (0 <? pointToSegmentDistance p start end_)%float = false) →
  ∀ depth, simplifyPath depth points tolerance = None.
Proof.
  intros Htol Hlen Hhead Hlast Hflat.
  assert (Hfar : farthest points start end_ = (0%float, 0%nat)).
  { unfold farthest. generalize (seq 1 (length points - 2)).
    induction l as [|i l IH]; [done|]. simpl.
    destruct (points !! i) as [p|] eqn:Hp; [|done].
    by rewrite (Hflat i p Hp). }
  induction depth as [|depth IH]; [done|].
  simpl. rewrite (proj2 (Nat.leb_gt _ _)) by lia.
  rewrite Hhead, Hlast, Hfar, Htol. simpl.
  change (drop 0 points) with points. rewrite IH.
  by destruct (simplifyPath depth (take 1 points) tolerance).
Qed.

(** What the eraser never removes: a stroke with no points or one point, a
    shape without both of its end points or with a tool other than
    rectangle, ellipse, line and arrow, and a sticky note without position
    or size, wherever the click is and whatever the threshold. *)
Theorem eraser_misses_degenerate_elements (p : Point) (element : WhiteboardElement)
    (threshold : number) :
  match type element with
  | stroke =>
      match points element with
      | None => True
      | Some pts => length pts < 2
      end
  | shape =>
      startPoint element = None ∨ endPoint element = None
      ∨ tool element ∉ [rectangle; ellipse; line; arrow]
  | sticky_note => position element = None ∨ size element = None
  end →
  shouldEraseElement p element threshold = false.
Proof.
  unfold shouldEraseElement, isPointNearStroke, isPointNearShape, isPointInStickyNote.
  destruct (type element).
  - destruct (points element) as [pts|]; [|done]. intros Hlen.
    by rewrite (proj2 (Nat.ltb_lt _ _)).
  - intros [-> | [-> | Htool]]; [done | by destruct (startPoint element) |].
    destruct (startPoint element); [|done]. destruct (endPoint element); [|done].
    destruct (tool element); try done; exfalso; apply Htool; set_solver.
  - intros [-> | ->]; [done | by destruct (position element)].
Qed.

End Geometry.

Lemma simplifyPath_keeps_the_ends_witness :
  ∃ r, @simplifyPath plain_math 6
         [pt 0%float 0%float; pt 1%float 0%float; pt 2%float 3%float; pt 3%float 0%float; pt 4%float 0%float] default_tolerance = Some r
       ∧ head r = Some (pt 0%float 0%float) ∧ last r = Some (pt 4%float 0%float).
Proof.
  destruct (@simplifyPath_keeps_the_ends plain_math default_tolerance 6
              [pt 0%float 0%float; pt 1%float 0%float; pt 2%float 3%float; pt 3%float 0%float; pt 4%float 0%float])
    as (r & Hr & Hh & Hl & _).
  - reflexivity.
  - simpl. lia.
  - exists r. split; [exact Hr|]. split; [exact Hh | exact Hl].
Defined.

Lemma simplifyPath_negative_tolerance_witness :
  @simplifyPath plain_math 1000 [pt 0%float 0%float; pt 0%float 0%float; pt 0%float 0%float] (-1)%float = None.
Proof.
  apply (@simplifyPath_negative_tolerance plain_math (-1)%float
           [pt 0%float 0%float; pt 0%float 0%float; pt 0%float 0%float] (pt 0%float 0%float) (pt 0%float 0%float)).
  - reflexivity.
  - simpl. lia.
  - reflexivity.
  - reflexivity.
  - intros [|[|[|i]]] p Hp; simpl in Hp; try discriminate;
      injection Hp as <-; reflexivity.
Defined.

Lemma eraser_misses_degenerate_elements_witness :
  @shouldEraseElement plain_math origin (dot 3%float) default_threshold = false.
Proof.
  apply (@eraser_misses_degenerate_elements plain_math origin (dot 3%float)
           default_threshold).
  simpl. lia.
Defined.

(** The loop variable of [smoothPath] takes four values: the fifth sum is
    exactly 1. *)
Lemma spline_steps_four :
  length (spline_steps 8 0x1.999999999999ap-3%float) = 4.
Proof. reflexivity. Qed.

Lemma spline_segment_four (points : list Point) (i : nat) :
  i + 1 < length points →
  ∃ segment, spline_segment points i = Some segment ∧ length segment = 4.
Proof.
  intros Hi.
  assert (H0 : is_Some (points !! Nat.max 0 (i - 1))) by (apply lookup_lt_is_Some; lia).
  assert (H1 : is_Some (points !! i)) by (apply lookup_lt_is_Some; lia).
  assert (H2 : is_Some (points !! Nat.min (length points - 1) (i + 1)))
    by (apply lookup_lt_is_Some; lia).
  assert (H3 : is_Some (points !! Nat.min (length points - 1) (i + 2)))
    by (apply lookup_lt_is_Some; lia).
  destruct H0 as [q0 H0], H1 as [q1 H1], H2 as [q2 H2], H3 as [q3 H3].
  unfold spline_segment. rewrite H0, H1, H2, H3.
  eexists. split; [reflexivity|]. by rewrite length_fmap, spline_steps_four.
Qed.

Lemma mapM_spline (points : list Point) (indices : list nat) :
  Forall (λ i, i + 1 < length points) indices →
  ∃ middle, mapM (spline_segment points) indices = Some middle
            ∧ length (concat middle) = 4 * length indices.
Proof.
  induction indices as [|i indices IH]; intros Hin.
  { exists []. done. }
  apply Forall_cons in Hin as [Hi His]. destruct (IH His) as (middle & Hm & Hlen).
  destruct (spline_segment_four points i Hi) as (segment & Hseg & Hfour).
  exists (segment :: middle). split.
  - change (mapM (spline_segment points) (i :: indices))
      with (y ← spline_segment points i;
            k ← mapM (spline_segment points) indices; mret (y :: k)).
    by rewrite Hseg, Hm.
  - simpl. rewrite length_app, Hfour, Hlen. lia.
Qed.

(** [smoothPath] never reads outside the path: a path of fewer than three
    points is returned as it is, and a path of [n >= 3] points comes back
    with four points added in each of its [n - 1] segments, [4 (n - 1) + 2]
    in all, starting and ending where the given path does. *)
Theorem smoothPath_length (points : list Point) (tension : number) :
  ∃ r, smoothPath points tension = Some r
       ∧ head r = head points ∧ last r = last points
       ∧ length r = (if (length points <? 3)%nat then length points
                     else 4 * (length points - 1) + 2).
Proof.
  unfold smoothPath. destruct (length points <? 3)%nat eqn:Hshort.
  { by exists points. }
  apply Nat.ltb_ge in Hshort.
  destruct (mapM_spline points (seq 0 (length points - 1))) as (middle & Hm & Hlen).
  { apply Forall_forall. intros i Hi. apply elem_of_seq in Hi. lia. }
  assert (Hf : is_Some (points !! 0%nat)) by (apply lookup_lt_is_Some; lia).
  assert (Hl : is_Some (points !! (length points - 1)%nat))
    by (apply lookup_lt_is_Some; lia).
  destruct Hf as [first Hf], Hl as [final Hl].
  rewrite Hf. simpl. rewrite Hm. simpl. rewrite Hl. simpl.
  eexists. split; [done|]. split; [|split].
  - simpl. by rewrite head_lookup.
  - rewrite last_cons, last_snoc, last_lookup.
    by replace (Init.Nat.pred (length points)) with (length points - 1) by lia.
  - simpl. rewrite length_app, Hlen, length_seq. simpl. lia.
Qed.

End UtilsFacts.
